(** * OData query-option interpreter (main.py): shallow embedding

    The program is a FastAPI service over two in-memory lists of pydantic
    records.  Its logic is the three static methods of [ODataQueryParser]
    (parse_filter, parse_select, parse_orderby) and the route handlers that
    chain them.  This file embeds that logic as Rocq functions and states
    the properties of the specification about them.

    Conventions of the embedding.
    - A Python [str] is a [string]; its characters are read as the code
      points U+0000..U+00FF, and [str.lower], [str.strip], [str.split] and
      the regular-expression classes [\w], [\s] follow CPython on that
      range.
    - A Python [int] is a [Z]; a [float] is a binary64 value other than NaN
      (the specification calls these fields decimals); a [datetime] is a
      naive one.
    - A [dict] whose key order is never observed is a [gmap string _].
    - A call that can raise returns a [result]; the module-level lists
      customers_data and orders_data are passed explicitly, and a handler
      that mutates one returns the new list next to its result. *)

From Stdlib Require Import ZArith QArith Qround Ascii String Floats.SpecFloat.
From stdpp Require Import gmap strings list fin_maps sorting pretty.

Local Open Scope string_scope.
Local Open Scope list_scope.
Local Open Scope Z_scope.

(** ** Exceptions *)

Inductive exn :=
  | ValueError
  | IndexError
  | TypeError
  | AttributeError
  | HTTPException (status_code : Z) (detail : string).

Inductive result (A : Type) :=
  | Return (a : A)
  | Raise (e : exn).
Arguments Return {A} a.
Arguments Raise {A} e.

#[global] Instance result_ret : MRet result := @Return.

#[global] Instance result_bind : MBind result := λ A B k m,
  match m with
  | Return a => k a
  | Raise e => Raise e
  end.

#[global] Instance result_fmap : FMap result := λ A B f m,
  match m with
  | Return a => Return (f a)
  | Raise e => Raise e
  end.

(** [try: m except: h] is a bare [except:] clause: every exception is
    caught. *)
Definition try_except {A} (m : result A) (handler : result A) : result A :=
  match m with
  | Return a => Return a
  | Raise _ => handler
  end.

(** [for x in l: ...] with a body that can raise and appends to an
    accumulator. *)
Fixpoint for_each {A S} (body : S → A → result S) (acc : S) (l : list A)
  : result S :=
  match l with
  | [] => Return acc
  | x :: l' => acc' ← body acc x; for_each body acc' l'
  end.

(** [[f(x) for x in l]] where [f] can raise. *)
Fixpoint map_result {A B} (f : A → result B) (l : list A) : result (list B) :=
  match l with
  | [] => Return []
  | x :: l' => y ← f x; ys ← map_result f l'; Return (y :: ys)
  end.

(** ** Text *)

Module Str.

Definition ord (c : ascii) : N := N_of_ascii c.

Definition in_range (lo hi : N) (c : ascii) : bool :=
  ((lo <=? ord c) && (ord c <=? hi))%N.

(** [c.isspace()], also the class [\s]. *)
Definition isspace (c : ascii) : bool :=
  in_range 9 13 c || in_range 28 32 c || in_range 133 133 c
  || in_range 160 160 c.

(** The class [\w]: alphanumeric or underscore. *)
Definition isword (c : ascii) : bool :=
  in_range 48 57 c || in_range 65 90 c || in_range 95 95 c
  || in_range 97 122 c || in_range 170 170 c || in_range 178 179 c
  || in_range 181 181 c || in_range 185 186 c || in_range 188 190 c
  || in_range 192 214 c || in_range 216 246 c || in_range 248 255 c.

Definition isprintable (c : ascii) : bool :=
  in_range 32 126 c || in_range 161 172 c || in_range 174 255 c.

Definition lower_char (c : ascii) : ascii :=
  if in_range 65 90 c || in_range 192 214 c || in_range 216 222 c
  then ascii_of_N (ord c + 32) else c.

(** [s.lower()] *)
Fixpoint lower (s : string) : string :=
  match s with
  | EmptyString => EmptyString
  | String c s' => String (lower_char c) (lower s')
  end.

(** [s.startswith(p)] *)
Fixpoint startswith (p s : string) : bool :=
  match p, s with
  | EmptyString, _ => true
  | String _ _, EmptyString => false
  | String a p', String b s' => bool_decide (a = b) && startswith p' s'
  end.

(** [sub in s] *)
Fixpoint contains (sub s : string) : bool :=
  startswith sub s ||
  match s with
  | EmptyString => false
  | String _ s' => contains sub s'
  end.

(** [s[n:]] for [n >= 0] *)
Fixpoint drop (n : nat) (s : string) : string :=
  match n, s with
  | O, _ => s
  | S _, EmptyString => EmptyString
  | S n', String _ s' => drop n' s'
  end.

(** [s.lstrip(chars)], [s.rstrip(chars)], [s.strip(chars)], with the
    character set as a predicate. *)
Fixpoint lstrip_by (p : ascii → bool) (s : string) : string :=
  match s with
  | EmptyString => EmptyString
  | String c s' => if p c then lstrip_by p s' else s
  end.

Fixpoint rstrip_by (p : ascii → bool) (s : string) : string :=
  match s with
  | EmptyString => EmptyString
  | String c s' =>
      match rstrip_by p s' with
      | EmptyString => if p c then EmptyString else String c EmptyString
      | r => String c r
      end
  end.

Definition strip_by (p : ascii → bool) (s : string) : string :=
  rstrip_by p (lstrip_by p s).

(** [s.strip()] *)
Definition strip (s : string) : string := strip_by isspace s.

(** The character set of the second [strip] of parse_filter: the single
    quote (39) and the double quote (34). *)
Definition isquote (c : ascii) : bool :=
  in_range 39 39 c || in_range 34 34 c.

(** [s.split(sep)] for a non-empty [sep]: the separators are found from
    the left and do not overlap.  [skip] counts the characters of the
    separator found last that are still to be passed over, [cur] is the
    part read so far, reversed. *)
Fixpoint split_go (sep : string) (skip : nat) (cur : string) (s : string)
  : list string :=
  match s with
  | EmptyString => [String.rev cur]
  | String c s' =>
      match skip with
      | S skip' => split_go sep skip' cur s'
      | O =>
          if startswith sep s
          then String.rev cur
               :: split_go sep (String.length sep - 1) EmptyString s'
          else split_go sep O (String c cur) s'
      end
  end.

Definition split (sep s : string) : list string :=
  split_go sep O EmptyString s.

(** [s.split()]: the maximal runs of non-whitespace characters. *)
Fixpoint split_ws_go (cur : string) (s : string) : list string :=
  match s with
  | EmptyString =>
      match cur with
      | EmptyString => []
      | _ => [String.rev cur]
      end
  | String c s' =>
      if isspace c then
        match cur with
        | EmptyString => split_ws_go EmptyString s'
        | _ => String.rev cur :: split_ws_go EmptyString s'
        end
      else split_ws_go (String c cur) s'
  end.

Definition split_ws (s : string) : list string :=
  split_ws_go EmptyString s.

(** [sep.join(l)] *)
Fixpoint join (sep : string) (l : list string) : string :=
  match l with
  | [] => EmptyString
  | [s] => s
  | s :: l' => s +:+ sep +:+ join sep l'
  end.

(** The longest prefix of [s] whose characters satisfy [p], and the rest. *)
Fixpoint span (p : ascii → bool) (s : string) : string * string :=
  match s with
  | EmptyString => (EmptyString, EmptyString)
  | String c s' =>
      if p c then let '(a, b) := span p s' in (String c a, b)
      else (EmptyString, s)
  end.

(** [s] without the prefix [p], when it has it. *)
Definition after (p s : string) : option string :=
  if startswith p s then Some (drop (String.length p) s) else None.

(** The class [[^x]]: any character but [x]. *)
Definition isnt (x : ascii) (c : ascii) : bool := negb (bool_decide (c = x)).

(** Every character of [s] satisfies [p]. *)
Fixpoint all (p : ascii → bool) (s : string) : bool :=
  match s with
  | EmptyString => true
  | String c s' => p c && all p s'
  end.

(** [s] does not begin with a character that satisfies [p]. *)
Definition stops (p : ascii → bool) (s : string) : Prop :=
  match s with
  | EmptyString => True
  | String c _ => p c = false
  end.

End Str.

(** ** Numbers *)

(** A binary64 value [(-1)^neg * m * 2^e], a signed zero or a signed
    infinity. *)
Inductive float :=
  | Fzero (neg : bool)
  | Finf (neg : bool)
  | Ffin (neg : bool) (m : positive) (e : Z).

(** [float(z)] for an integer in the binary64 range, rounded to nearest
    even. *)
Definition float_of_int (z : Z) : float :=
  match binary_normalize 53 1024 z 0 false with
  | S754_finite s m e => Ffin s m e
  | S754_infinity s => Finf s
  | _ => Fzero false
  end.

(** The numeric tower as far as [<] and [==] see it: an int and a float
    are compared by their exact values. *)
Inductive number :=
  | NegInf
  | Finite (q : Q)
  | PosInf.

Definition number_of_int (z : Z) : number := Finite (inject_Z z).

Definition number_of_float (f : float) : number :=
  match f with
  | Fzero _ => Finite 0
  | Finf true => NegInf
  | Finf false => PosInf
  | Ffin neg m e =>
      Finite (inject_Z (if neg then Z.neg m else Z.pos m) * Qpower 2 e)%Q
  end.

Definition number_compare (a b : number) : comparison :=
  match a, b with
  | NegInf, NegInf => Eq
  | NegInf, _ => Lt
  | _, NegInf => Gt
  | PosInf, PosInf => Eq
  | PosInf, _ => Gt
  | _, PosInf => Lt
  | Finite p, Finite q => Qcompare p q
  end.

(** *** [repr] of a float: the shortest decimal that reads back as the
    same binary64 value, in positional notation when the decimal point
    falls within the digits printed or close to them, in exponent notation
    otherwise. *)
Module FloatRepr.

(** The largest [p] with [10^p <= v], for [v > 0]: an estimate from the
    bit lengths, then a search upwards. *)
Fixpoint exponent_from (fuel : nat) (v : Q) (p : Z) : Z :=
  match fuel with
  | O => p
  | S fuel' =>
      if bool_decide (Qcompare v (Qpower 10 (p + 1)) = Lt) then p
      else exponent_from fuel' v (p + 1)
  end.

Definition exponent (v : Q) : Z :=
  let bits := Z.log2 (Qnum v) - Z.log2 (Z.pos (Qden v)) in
  exponent_from 8 v (bits * 30103 / 100000 - 3).

(** Does the decimal [x] read back as the float [m * 2^e]?  The interval
    that rounds to the float ends halfway to its neighbours, and the ends
    belong to it when [m] is even. *)
Definition reads_back (m : positive) (e : Z) (x : Q) : bool :=
  let below :=
    if bool_decide (m = 4503599627370496%positive ∧ -1074 < e)
    then (inject_Z (4 * Z.pos m - 1) * Qpower 2 (e - 2))%Q
    else (inject_Z (4 * Z.pos m - 2) * Qpower 2 (e - 2))%Q in
  let above := (inject_Z (4 * Z.pos m + 2) * Qpower 2 (e - 2))%Q in
  match Qcompare below x, Qcompare x above with
  | Lt, Lt => true
  | Eq, _ | _, Eq => Z.even (Z.pos m)
  | _, _ => false
  end.

(** The decimal [d * 10^k] with [n] digits closest to [v] that reads
    back, for the least [n] that has one. *)
Fixpoint shortest (fuel : nat) (m : positive) (e : Z) (v : Q) (p : Z)
    (n : Z) : Z * Z :=
  let k := p - n + 1 in
  let d := Qfloor (v / Qpower 10 k)%Q in
  let lo := (inject_Z d * Qpower 10 k)%Q in
  let hi := (inject_Z (d + 1) * Qpower 10 k)%Q in
  match fuel with
  | O => (d, k)
  | S fuel' =>
      match reads_back m e lo, reads_back m e hi with
      | true, true =>
          if bool_decide (Qcompare (v - lo)%Q (hi - v)%Q = Gt)
          then (d + 1, k) else (d, k)
      | true, false => (d, k)
      | false, true => (d + 1, k)
      | false, false => shortest fuel' m e v p (n + 1)
      end
  end.

Definition zeros (n : Z) : string :=
  string_of_list_ascii (replicate (Z.to_nat n) "0"%char).

Definition rstrip_zeros (s : string) : string :=
  Str.rstrip_by (λ c, bool_decide (c = "0"%char)) s.

Definition take (n : Z) (s : string) : string :=
  String.substring 0 (Z.to_nat n) s.

(** The digits [ds], read as [0.ds * 10^point]. *)
Definition layout (ds : string) (point : Z) : string :=
  let n := Z.of_nat (String.length ds) in
  if bool_decide (point ≤ -4 ∨ 16 < point) then
    let x := point - 1 in
    take 1 ds
    +:+ (if bool_decide (1 < n) then "." +:+ Str.drop 1 ds else "")
    +:+ "e" +:+ (if bool_decide (x < 0) then "-" else "+")
    +:+ (if bool_decide (Z.abs x < 10) then "0" else "")
    +:+ pretty (Z.abs x)
  else if bool_decide (point ≤ 0) then
    "0." +:+ zeros (- point) +:+ ds
  else if bool_decide (n ≤ point) then
    ds +:+ zeros (point - n) +:+ ".0"
  else
    take point ds +:+ "." +:+ Str.drop (Z.to_nat point) ds.

Definition repr (f : float) : string :=
  match f with
  | Fzero neg => if neg then "-0.0" else "0.0"
  | Finf neg => if neg then "-inf" else "inf"
  | Ffin neg m e =>
      let v := (inject_Z (Z.pos m) * Qpower 2 e)%Q in
      let '(d, k) := shortest 17 m e v (exponent v) 1 in
      let ds := pretty d in
      (if neg then "-" else "")
      +:+ layout (rstrip_zeros ds) (k + Z.of_nat (String.length ds))
  end.

End FloatRepr.

(** ** Values of record fields *)

(** class CustomerStatus(str, Enum) *)
Inductive CustomerStatus := ACTIVE | INACTIVE | SUSPENDED.

Definition CustomerStatus_name (s : CustomerStatus) : string :=
  match s with
  | ACTIVE => "ACTIVE"
  | INACTIVE => "INACTIVE"
  | SUSPENDED => "SUSPENDED"
  end.

Definition CustomerStatus_value (s : CustomerStatus) : string :=
  match s with
  | ACTIVE => "Active"
  | INACTIVE => "Inactive"
  | SUSPENDED => "Suspended"
  end.

Record datetime := {
  year : N; month : N; day : N;
  hour : N; minute : N; second : N; microsecond : N
}.

(** What a field of a record holds: the field types of the two models. *)
Inductive Any :=
  | VInt (z : Z)
  | VFloat (f : float)
  | VStr (s : string)
  | VStatus (s : CustomerStatus)
  | VDateTime (d : datetime)
  | VList (l : list string).

(** ** Built-in operations on these values *)

Module Py.

(** *** [str(v)] *)

Definition hex_digit (n : N) : ascii :=
  ascii_of_N (if (n <? 10)%N then 48 + n else 87 + n).

(** [repr(s)] of a string: single quotes unless the text has a single
    quote and no double quote; backslash, the quote in use, tab, newline,
    carriage return and unprintable characters are escaped. *)
Definition repr_char (quote : ascii) (c : ascii) : string :=
  let esc (x : ascii) := String "\"%char (String x EmptyString) in
  if bool_decide (c = quote ∨ c = "\"%char) then esc c
  else if bool_decide (Str.ord c = 9%N) then esc "t"%char
  else if bool_decide (Str.ord c = 10%N) then esc "n"%char
  else if bool_decide (Str.ord c = 13%N) then esc "r"%char
  else if Str.isprintable c then String c EmptyString
  else String "\"%char (String "x"%char
         (String (hex_digit (Str.ord c / 16)%N)
            (String (hex_digit (Str.ord c mod 16)%N) EmptyString))).

Fixpoint repr_chars (quote : ascii) (s : string) : string :=
  match s with
  | EmptyString => EmptyString
  | String c s' => repr_char quote c +:+ repr_chars quote s'
  end.

Definition repr_str (s : string) : string :=
  let single := "'"%char in
  let double := ascii_of_N 34 in
  let quote :=
    if Str.contains (String single EmptyString) s
       && negb (Str.contains (String double EmptyString) s)
    then double else single in
  String quote (repr_chars quote s) +:+ String quote EmptyString.

(** [str(n).zfill(width)] for a natural number. *)
Definition zfill (width : nat) (n : N) : string :=
  let s := pretty n in
  string_of_list_ascii (replicate (width - String.length s) "0"%char) +:+ s.

(** [str(d)]: the ISO form with a space between date and time. *)
Definition str_datetime (d : datetime) : string :=
  zfill 4 (year d) +:+ "-" +:+ zfill 2 (month d) +:+ "-" +:+ zfill 2 (day d)
  +:+ " " +:+ zfill 2 (hour d) +:+ ":" +:+ zfill 2 (minute d)
  +:+ ":" +:+ zfill 2 (second d)
  +:+ (if bool_decide (microsecond d = 0%N) then ""
       else "." +:+ zfill 6 (microsecond d)).

(** The member of an Enum with a str mixin prints as ClassName.MEMBER, not
    as its value; a list prints the [repr] of its elements. *)
Definition str (v : Any) : string :=
  match v with
  | VInt z => pretty z
  | VFloat f => FloatRepr.repr f
  | VStr s => s
  | VStatus s => "CustomerStatus." +:+ CustomerStatus_name s
  | VDateTime d => str_datetime d
  | VList l => "[" +:+ Str.join ", " (repr_str <$> l) +:+ "]"
  end.

(** *** Comparison of field values *)

Definition datetime_fields (d : datetime) : list N :=
  [year d; month d; day d; hour d; minute d; second d; microsecond d].

(** What [<] and [==] look at in a value: a number (an int and a float
    compare by their exact values), a text (a CustomerStatus member is a
    str and compares as its value), the fields of a datetime, or a list. *)
Inductive operand :=
  | Number (x : number)
  | Text (s : string)
  | Moment (fields : list N)
  | Texts (l : list string).

Definition operand_of (v : Any) : operand :=
  match v with
  | VInt z => Number (number_of_int z)
  | VFloat f => Number (number_of_float f)
  | VStr s => Text s
  | VStatus s => Text (CustomerStatus_value s)
  | VDateTime d => Moment (datetime_fields d)
  | VList l => Texts l
  end.

(** Operands of one kind are ordered, sequences by their first differing
    element and then by length; operands of two kinds are not. *)
Definition operand_compare (a b : operand) : option comparison :=
  match a, b with
  | Number x, Number y => Some (number_compare x y)
  | Text s, Text t => Some (String.compare s t)
  | Moment d, Moment d' => Some (list_compare N.compare d d')
  | Texts l, Texts l' => Some (list_compare String.compare l l')
  | _, _ => None
  end.

Definition compare (a b : Any) : option comparison :=
  operand_compare (operand_of a) (operand_of b).

(** [a < b]; a TypeError when the operands cannot be ordered. *)
Definition lt (a b : Any) : result bool :=
  match compare a b with
  | Some c => Return (bool_decide (c = Lt))
  | None => Raise TypeError
  end.


(** *** [sorted(data, key=..., reverse=...)]

    The keys are computed first, in list order.  The sort is the stable
    one of list.sort: it only asks whether a later element is less than an
    earlier one, and with [reverse] it sorts the reversed list and
    reverses the outcome.  Whenever [<] is a strict weak order on the keys
    there is one stable sorted arrangement, computed here by insertion. *)
Fixpoint insert {A} (x : Any * A) (l : list (Any * A))
  : result (list (Any * A)) :=
  match l with
  | [] => Return [x]
  | y :: l' =>
      b ← lt y.1 x.1;
      if b : bool then l'' ← insert x l'; Return (y :: l'')
      else Return (x :: y :: l')
  end.

Fixpoint sort {A} (l : list (Any * A)) : result (list (Any * A)) :=
  match l with
  | [] => Return []
  | x :: l' => s ← sort l'; insert x s
  end.

Definition sorted {A} (data : list A) (key : A → result Any)
    (reverse : bool) : result (list A) :=
  keyed ← map_result (λ x, k ← key x; Return (k, x)) data;
  if reverse then s ← sort (list.reverse keyed); Return (list.reverse s).*2
  else s ← sort keyed; Return s.*2.

End Py.

(** [l[i:]] and [l[:j]] for any integers: a negative index counts from the
    end, and an index past either end is clamped. *)
Definition slice_index {A} (l : list A) (i : Z) : nat :=
  Z.to_nat (if bool_decide (i < 0) then Z.max (Z.of_nat (length l) + i) 0
            else i).

Definition slice_from {A} (l : list A) (i : Z) : list A :=
  drop (slice_index l i) l.

Definition slice_to {A} (l : list A) (j : Z) : list A :=
  take (slice_index l j) l.

(** ** Models *)

(** A pydantic model: [item.dict()] gives its fields by name, and
    [hasattr(item, name)] / [getattr(item, name)] are looked up there.
    Attributes that are not fields (the methods of BaseModel) are not
    modelled. *)
Class Model (A : Type) := dict : A → gmap string Any.

Record Customer := {
  CustomerID : Z;
  CustomerName : string;
  Email : string;
  Phone : string;
  City : string;
  Country : string;
  Status : CustomerStatus;
  CreatedDate : datetime;
  CreditLimit : float
}.

Record Order := {
  OrderID : Z;
  Order_CustomerID : Z;
  OrderDate : datetime;
  TotalAmount : float;
  Order_Status : string;
  Items : list string
}.

#[global] Instance Customer_dict : Model Customer := λ c,
  {[ "CustomerID" := VInt (CustomerID c);
     "CustomerName" := VStr (CustomerName c);
     "Email" := VStr (Email c);
     "Phone" := VStr (Phone c);
     "City" := VStr (City c);
     "Country" := VStr (Country c);
     "Status" := VStatus (Status c);
     "CreatedDate" := VDateTime (CreatedDate c);
     "CreditLimit" := VFloat (CreditLimit c) ]}.

#[global] Instance Order_dict : Model Order := λ o,
  {[ "OrderID" := VInt (OrderID o);
     "CustomerID" := VInt (Order_CustomerID o);
     "OrderDate" := VDateTime (OrderDate o);
     "TotalAmount" := VFloat (TotalAmount o);
     "Status" := VStr (Order_Status o);
     "Items" := VList (Items o) ]}.

Record ODataResponse := {
  value : list (gmap string Any);
  count : option Z
}.

(** ** Sample data *)

(** [datetime(y, m, d)] *)
Definition date (y m d : N) : datetime :=
  {| year := y; month := m; day := d;
     hour := 0; minute := 0; second := 0; microsecond := 0 |}.

Definition customers_data : list Customer := [
  {| CustomerID := 1;
     CustomerName := "Tech Solutions LLC";
     Email := "contact@techsolutions.com";
     Phone := "+1-555-0123";
     City := "New York";
     Country := "USA";
     Status := ACTIVE;
     CreatedDate := date 2023 1 15;
     CreditLimit := float_of_int 50000 |};
  {| CustomerID := 2;
     CustomerName := "Global Trading Co";
     Email := "info@globaltrading.com";
     Phone := "+1-555-0456";
     City := "Los Angeles";
     Country := "USA";
     Status := ACTIVE;
     CreatedDate := date 2023 3 22;
     CreditLimit := float_of_int 75000 |};
  {| CustomerID := 3;
     CustomerName := "European Systems";
     Email := "sales@eusystems.eu";
     Phone := "+49-30-123456";
     City := "Berlin";
     Country := "Germany";
     Status := INACTIVE;
     CreatedDate := date 2023 2 10;
     CreditLimit := float_of_int 30000 |};
  {| CustomerID := 4;
     CustomerName := "Asian Enterprises";
     Email := "contact@asianent.com";
     Phone := "+81-3-1234567";
     City := "Tokyo";
     Country := "Japan";
     Status := ACTIVE;
     CreatedDate := date 2023 4 5;
     CreditLimit := float_of_int 60000 |}
].

Definition orders_data : list Order := [
  {| OrderID := 1001; Order_CustomerID := 1; OrderDate := date 2024 1 10;
     TotalAmount := float_of_int 15000; Order_Status := "Completed";
     Items := ["Laptop"; "Software License"] |};
  {| OrderID := 1002; Order_CustomerID := 2; OrderDate := date 2024 1 15;
     TotalAmount := float_of_int 25000; Order_Status := "Processing";
     Items := ["Server"; "Network Equipment"] |};
  {| OrderID := 1003; Order_CustomerID := 1; OrderDate := date 2024 2 1;
     TotalAmount := float_of_int 8000; Order_Status := "Shipped";
     Items := ["Tablets"; "Accessories"] |};
  {| OrderID := 1004; Order_CustomerID := 4; OrderDate := date 2024 2 10;
     TotalAmount := float_of_int 35000; Order_Status := "Completed";
     Items := ["Enterprise Software"] |}
].

(** ** class ODataQueryParser *)

(** [if s:] for an optional string: None and the empty string are false. *)
Definition truthy (s : option string) : bool :=
  match s with
  | Some (String _ _) => true
  | _ => false
  end.

(** [if n:] for an optional integer: None and 0 are false. *)
Definition truthy_int (n : option Z) : bool :=
  match n with
  | Some n => negb (bool_decide (n = 0))
  | None => false
  end.

(** [a, b = parts]: a ValueError unless there are exactly two parts. *)
Definition unpack2 {A} (parts : list A) : result (A * A) :=
  match parts with
  | [a; b] => Return (a, b)
  | _ => Raise ValueError
  end.

(** [parts[i]]: an IndexError out of range. *)
Definition index {A} (parts : list A) (i : nat) : result A :=
  match parts !! i with
  | Some x => Return x
  | None => Raise IndexError
  end.

(** [{field: d.get(field) for field in fields if field in d}] *)
Definition select_fields {V} (fields : list string) (d : gmap string V)
  : gmap string V :=
  foldl (λ acc field,
           match d !! field with
           | Some v => <[field := v]> acc
           | None => acc
           end) ∅ fields.

Module ODataQueryParser.

(** A match of the pattern
      contains\((\w+),\s*'([^']+)'\)
    that starts at the head of [s], as its two groups.  Each repetition is
    followed by a character outside its class, so the longest run is the
    only one that can match. *)
Definition contains_at (s : string) : option (string * string) :=
  s ← Str.after "contains(" s;
  let '(field, s) := Str.span Str.isword s in
  if bool_decide (field = "") then None else
  s ← Str.after "," s;
  let '(_, s) := Str.span Str.isspace s in
  s ← Str.after "'" s;
  let '(value, s) := Str.span (Str.isnt "'") s in
  if bool_decide (value = "") then None else
  _ ← Str.after "')" s;
  Some (field, value).

(** [re.search] of that pattern: the match with the leftmost start. *)
Fixpoint search_contains (s : string) : option (string * string) :=
  match contains_at s with
  | Some groups => Some groups
  | None =>
      match s with
      | EmptyString => None
      | String _ s' => search_contains s'
      end
  end.

(** parse_filter.  The string [filter_parts] the source computes is never
    read and is left out. *)
Definition parse_filter `{Model A} (filter_str : option string)
    (data : list A) : result (list A) :=
  if negb (truthy filter_str) then Return data else
  let filter_str := default "" filter_str in
  for_each (λ filtered_data item,
    let item_dict := dict item in
    if Str.contains " eq " filter_str then
      '(field, value) ← unpack2 (Str.split " eq " filter_str);
      let field := Str.strip field in
      let value := Str.strip_by Str.isquote (Str.strip value) in
      match item_dict !! field with
      | Some v =>
          if bool_decide (Str.lower (Py.str v) = Str.lower value)
          then Return (filtered_data ++ [item])
          else Return filtered_data
      | None => Return filtered_data
      end
    else if Str.contains "contains(" filter_str then
      match search_contains filter_str with
      | Some (field, value) =>
          match item_dict !! field with
          | Some v =>
              if Str.contains (Str.lower value) (Str.lower (Py.str v))
              then Return (filtered_data ++ [item])
              else Return filtered_data
          | None => Return filtered_data
          end
      | None => Return filtered_data
      end
    else Return (filtered_data ++ [item])) [] data.

(** parse_select *)
Definition parse_select `{Model A} (select_str : option string)
    (data : list A) : list (gmap string Any) :=
  if negb (truthy select_str) then dict <$> data else
  let fields := Str.strip <$> Str.split "," (default "" select_str) in
  (λ item, select_fields fields (dict item)) <$> data.

(** The key function of parse_orderby,
      lambda x: getattr(x, field) if hasattr(x, field) else x.get(field)
    An item is a model, which has no method [get]: for a name that is not
    an attribute the call raises. *)
Definition orderby_key `{Model A} (field : string) (x : A) : result Any :=
  match dict x !! field with
  | Some v => Return v
  | None => Raise AttributeError
  end.

(** parse_orderby *)
Definition parse_orderby `{Model A} (orderby_str : option string)
    (data : list A) : result (list A) :=
  if negb (truthy orderby_str) then Return data else
  let parts := Str.split_ws (default "" orderby_str) in
  field ← index parts 0;
  let desc :=
    bool_decide (1 < length parts)%nat
    && bool_decide (Str.lower <$> parts !! 1%nat = Some "desc") in
  try_except (Py.sorted data (orderby_key field) desc) (Return data).

End ODataQueryParser.

(** ** Endpoints *)

Import ODataQueryParser.

(** GET /odata/$metadata: the document has a version and, for each entity
    set, the names of its properties with the names of their types. *)
Record Entity := { properties : gmap string string }.

Record Metadata := {
  version : string;
  entities : gmap string Entity
}.

Definition get_metadata : Metadata :=
  {| version := "4.0";
     entities :=
       {[ "Customers" :=
            {| properties :=
                 {[ "CustomerID" := "int";
                    "CustomerName" := "string";
                    "Email" := "string";
                    "Phone" := "string";
                    "City" := "string";
                    "Country" := "string";
                    "Status" := "string";
                    "CreatedDate" := "datetime";
                    "CreditLimit" := "decimal" ]} |};
          "Orders" :=
            {| properties :=
                 {[ "OrderID" := "int";
                    "CustomerID" := "int";
                    "OrderDate" := "datetime";
                    "TotalAmount" := "decimal";
                    "Status" := "string";
                    "Items" := "array" ]} |} ]} |}.

(** GET /odata/Customers *)
Definition get_customers (customers_data : list Customer)
    (filter_ select orderby : option string) (top skip : option Z)
    (count : option bool) : result ODataResponse :=
  filtered_data ← parse_filter filter_ customers_data;
  ordered_data ← parse_orderby orderby filtered_data;
  let total_count := Z.of_nat (length ordered_data) in
  let ordered_data :=
    if truthy_int skip then slice_from ordered_data (default 0 skip)
    else ordered_data in
  let ordered_data :=
    if truthy_int top then slice_to ordered_data (default 0 top)
    else ordered_data in
  let result_data := parse_select select ordered_data in
  Return {| value := result_data;
            count := if default false count then Some total_count
                     else None |}.

(** GET /odata/Orders *)
Definition get_orders (orders_data : list Order)
    (filter_ select orderby : option string) (top skip : option Z)
    (count : option bool) : result ODataResponse :=
  filtered_data ← parse_filter filter_ orders_data;
  ordered_data ← parse_orderby orderby filtered_data;
  let total_count := Z.of_nat (length ordered_data) in
  let ordered_data :=
    if truthy_int skip then slice_from ordered_data (default 0 skip)
    else ordered_data in
  let ordered_data :=
    if truthy_int top then slice_to ordered_data (default 0 top)
    else ordered_data in
  let result_data := parse_select select ordered_data in
  Return {| value := result_data;
            count := if default false count then Some total_count
                     else None |}.

(** What the mapping returned by get_customer_by_id holds under a key: a
    field of the customer, or the list of expanded orders. *)
Inductive entry :=
  | Field (v : Any)
  | Records (l : list (gmap string Any)).

(** GET /odata/Customers({customer_id}) *)
Definition get_customer_by_id (customers_data : list Customer)
    (orders_data : list Order) (customer_id : Z)
    (select expand : option string) : result (gmap string entry) :=
  match list_find (λ c, CustomerID c = customer_id) customers_data with
  | None => Raise (HTTPException 404 "Customer not found")
  | Some (_, customer) =>
      let result : gmap string entry := Field <$> dict customer in
      let result :=
        if truthy expand && Str.contains "Orders" (default "" expand) then
          let customer_orders :=
            dict <$> filter (λ o, Order_CustomerID o = customer_id)
                       orders_data in
          <["Orders" := Records customer_orders]> result
        else result in
      let result :=
        if truthy select then
          let fields := Str.strip <$> Str.split "," (default "" select) in
          select_fields fields result
        else result in
      Return result
  end.

(** GET /odata/Orders({order_id}) *)
Definition get_order_by_id (orders_data : list Order) (order_id : Z)
  : result (gmap string Any) :=
  match list_find (λ o, OrderID o = order_id) orders_data with
  | None => Raise (HTTPException 404 "Order not found")
  | Some (_, order) => Return (dict order)
  end.

(** The body of a successful write: a message and, for create and update,
    the record as a mapping. *)
Record reply := {
  message : string;
  customer : option (gmap string Any)
}.

(** POST /odata/Customers.  The handlers that write return the list
    customers_data as they leave it, also when they raise. *)
Definition create_customer (customer : Customer)
    (customers_data : list Customer) : result reply * list Customer :=
  if existsb (λ c, bool_decide (CustomerID c = CustomerID customer))
       customers_data
  then (Raise (HTTPException 400 "Customer ID already exists"),
        customers_data)
  else (Return {| message := "Customer created successfully";
                  customer := Some (dict customer) |},
        customers_data ++ [customer]).

(** PUT /odata/Customers({customer_id}) *)
Definition update_customer (customer_id : Z) (customer : Customer)
    (customers_data : list Customer) : result reply * list Customer :=
  match list_find (λ c, CustomerID c = customer_id) customers_data with
  | Some (i, _) =>
      (Return {| message := "Customer updated successfully";
                 customer := Some (dict customer) |},
       <[i := customer]> customers_data)
  | None =>
      (Raise (HTTPException 404 "Customer not found"), customers_data)
  end.

(** DELETE /odata/Customers({customer_id}) *)
Definition delete_customer (customer_id : Z)
    (customers_data : list Customer) : result reply * list Customer :=
  match list_find (λ c, CustomerID c = customer_id) customers_data with
  | Some (i, _) =>
      (Return {| message := "Customer deleted successfully";
                 customer := None |},
       delete i customers_data)
  | None =>
      (Raise (HTTPException 404 "Customer not found"), customers_data)
  end.

(** ** Notions the properties are stated with *)

(** No two customers of the list share a CustomerID. *)
Definition unique_ids (customers_data : list Customer) : Prop :=
  NoDup (CustomerID <$> customers_data).

(** The requests that write, and the list they leave. *)
Inductive request :=
  | POST (customer : Customer)
  | PUT (customer_id : Z) (customer : Customer)
  | DELETE (customer_id : Z).

Definition serve (customers_data : list Customer) (r : request)
  : list Customer :=
  match r with
  | POST customer => (create_customer customer customers_data).2
  | PUT customer_id customer =>
      (update_customer customer_id customer customers_data).2
  | DELETE customer_id => (delete_customer customer_id customers_data).2
  end.

(** A replace whose body carries the id of its path. *)
Definition keeps_id (r : request) : Prop :=
  match r with
  | PUT customer_id customer => CustomerID customer = customer_id
  | _ => True
  end.

(** The string form of field [F] of [r] equals [V] up to case; false when
    [r] has no field [F]. *)
Definition field_iequals `{Model A} (F V : string) (r : A) : bool :=
  match dict r !! F with
  | Some v => bool_decide (Str.lower (Py.str v) = Str.lower V)
  | None => false
  end.

(** The string form of field [F] of [r] contains [V] up to case. *)
Definition field_icontains `{Model A} (F V : string) (r : A) : bool :=
  match dict r !! F with
  | Some v => Str.contains (Str.lower V) (Str.lower (Py.str v))
  | None => false
  end.

(** The names a select list asks for: split at the commas and trimmed. *)
Definition fields_of (select_str : string) : list string :=
  Str.strip <$> Str.split "," select_str.

(** The page of a list: drop the first [skip] elements, then keep the first
    [top] of the rest; an absent or zero value leaves its step out. *)
Definition page {A} (skip top : option Z) (l : list A) : list A :=
  let rest := drop (Z.to_nat (default 0 skip)) l in
  match top with
  | Some n => if bool_decide (n = 0) then rest else take (Z.to_nat n) rest
  | None => rest
  end.


(** A comparison function that decides a total order. *)
Definition total_order {A} (cmp : A → A → comparison) : Prop :=
  (∀ x y, cmp x y = Eq ↔ x = y)
  ∧ (∀ x y, cmp y x = CompOpp (cmp x y))
  ∧ (∀ x y z c, cmp x y = c → cmp y z = c → cmp x z = c).

(** Being not less is transitive for [cmp]. *)
Definition no_less_trans {A} (cmp : A → A → comparison) : Prop :=
  ∀ x y z, cmp z y ≠ Lt → cmp y x ≠ Lt → cmp z x ≠ Lt.

(** The pair [p] may come before [q] in ascending order: the key of [q]
    is not less. *)
Definition not_after {A} (p q : Any * A) : Prop :=
  Py.lt q.1 p.1 = Return false.

(** [a] may come before [b] in the order asked for: ascending, the key
    of [b] is not less than the key of [a]; descending, the other way. *)
Definition in_order {A} (key : A → result Any) (reverse : bool) (a b : A)
  : Prop :=
  ∃ ka kb, key a = Return ka ∧ key b = Return kb
           ∧ Py.lt (if reverse then ka else kb) (if reverse then kb else ka)
             = Return false.

(** The pair [p] carries the key of its item. *)
Definition keyed {A} (key : A → result Any) (p : Any * A) : Prop :=
  key p.2 = Return p.1.

(** The key of [x] exists and satisfies [P]. *)
Definition key_in {A} (P : Any → bool) (key : A → result Any) (x : A)
  : bool :=
  match key x with
  | Return k => P k
  | Raise _ => false
  end.


(** A request body for PUT /odata/Customers(1) whose CustomerID is 2. *)
Definition renumbered : Customer :=
  {| CustomerID := 2;
     CustomerName := "Tech Solutions LLC";
     Email := "contact@techsolutions.com";
     Phone := "+1-555-0123";
     City := "New York";
     Country := "USA";
     Status := ACTIVE;
     CreatedDate := date 2023 1 15;
     CreditLimit := float_of_int 50000 |}.

(** The properties the metadata document declares for an entity set. *)
Definition declared (entity : string) : gmap string string :=
  from_option properties ∅ (entities get_metadata !! entity).

(** Two members of CustomerStatus are the same or not. *)
#[global] Instance CustomerStatus_eq_dec : EqDecision CustomerStatus.
Proof. solve_decision. Defined.

(** The ids a request names: in its path and in its body. *)
Definition touched (r : request) : list Z :=
  match r with
  | POST customer => [CustomerID customer]
  | PUT customer_id customer => [customer_id; CustomerID customer]
  | DELETE customer_id => [customer_id]
  end.

(** Does a select list keep the name [k]?  An absent or empty list keeps
    every name. *)
Definition selects (select : option string) (k : string) : bool :=
  negb (truthy select) || bool_decide (k ∈ fields_of (default "" select)).

(** A character of the decimal form of an integer: a digit or the minus
    sign. *)
Definition numeral_char (c : ascii) : bool :=
  Str.in_range 48 57 c || Str.in_range 45 45 c.

(** A request body for POST /odata/Customers whose CustomerID is 5. *)
Definition newcomer : Customer :=
  {| CustomerID := 5;
     CustomerName := "Nordic Supplies";
     Email := "hello@nordic.example";
     Phone := "+46-8-123456";
     City := "Stockholm";
     Country := "Sweden";
     Status := ACTIVE;
     CreatedDate := date 2024 3 1;
     CreditLimit := float_of_int 20000 |}.

(** The sort keys of the records exist and any two of them, at different
    places of the list, are strictly ordered one way or the other. *)
Definition distinct_keys {A} (key : A → result Any) (data : list A) : Prop :=
  ∃ keys, map_result key data = Return keys
    ∧ ∀ i j a b, keys !! i = Some a → keys !! j = Some b → (i < j)%nat →
        Py.lt a b = Return true ∨ Py.lt b a = Return true.

(** No key of the pairs comes twice, and any two keys are strictly ordered
    one way or the other. *)
Definition strict_keys {A} (l : list (Any * A)) : Prop :=
  NoDup l.*1
  ∧ ∀ a b, a ∈ l.*1 → b ∈ l.*1 → a ≠ b →
      Py.lt a b = Return true ∨ Py.lt b a = Return true.

(** * Properties *)

Ltac bind_simpl := cbn [mbind result_bind].

(** ** Text *)

Lemma split_go_nonempty sep skip cur s : Str.split_go sep skip cur s ≠ [].
Proof.
  revert skip cur. induction s as [|c s IH]; intros skip cur; [done|].
  cbn [Str.split_go]. destruct skip; [|apply IH].
  destruct (Str.startswith sep (String c s)); [done|apply IH].
Qed.

(** Without an occurrence of the separator there is one part. *)
Lemma split_go_one sep cur s :
  Str.contains sep s = false → length (Str.split_go sep 0 cur s) = 1%nat.
Proof.
  revert cur. induction s as [|c s IH]; intros cur Hc; [done|].
  cbn [Str.contains] in Hc. apply orb_false_iff in Hc as [Hp Hc].
  cbn [Str.split_go]. rewrite Hp. by apply IH.
Qed.

(** With an occurrence there are at least two. *)
Lemma split_go_two sep cur s :
  sep ≠ "" → Str.contains sep s = true →
  (2 ≤ length (Str.split_go sep 0 cur s))%nat.
Proof.
  intros Hsep. revert cur. induction s as [|c s IH]; intros cur Hc.
  - by destruct sep.
  - cbn [Str.contains] in Hc. cbn [Str.split_go].
    destruct (Str.startswith sep (String c s)) eqn:Hp.
    + pose proof (split_go_nonempty sep (String.length sep - 1) "" s).
      destruct (Str.split_go sep (String.length sep - 1) "" s);
        [done|cbn; lia].
    + by apply IH.
Qed.

Lemma split_two_contains sep s a b :
  Str.split sep s = [a; b] → Str.contains sep s = true.
Proof.
  intros Hs. destruct (Str.contains sep s) eqn:Hc; [done|].
  apply (split_go_one sep "") in Hc. unfold Str.split in Hs.
  by rewrite Hs in Hc.
Qed.

(** Concatenation and reversal, as the scans below use them. *)
Lemma append_cons a s t : String a s +:+ t = String a (s +:+ t).
Proof. reflexivity. Qed.

Lemma append_nil t : "" +:+ t = t.
Proof. reflexivity. Qed.

Lemma rev_app_app a b t :
  String.rev_app a b +:+ t = String.rev_app a (b +:+ t).
Proof.
  revert b. induction a as [|c a IH]; intros b; [done|]. cbn.
  by rewrite IH.
Qed.

Lemma rev_cons_app c cur t :
  String.rev (String c cur) +:+ t = String.rev cur +:+ String c t.
Proof. unfold String.rev. cbn. by rewrite !rev_app_app. Qed.

(** [span] cuts [s] where the run of [p] ends. *)
Lemma span_spec p s a b :
  Str.span p s = (a, b)
  ↔ s = a +:+ b ∧ Str.all p a = true ∧ Str.stops p b.
Proof.
  revert a b. induction s as [|c s IH]; intros a b; cbn [Str.span].
  - split.
    + by intros [= <- <-].
    + intros (Hs & _ & _). by destruct a, b.
  - destruct (p c) eqn:Hc.
    + destruct (Str.span p s) as [a' b'] eqn:Hsp. split.
      * intros [= <- <-].
        destruct (proj1 (IH a' b') eq_refl) as (-> & Ha & Hb).
        rewrite append_cons. cbn. by rewrite Hc, Ha.
      * intros (Hs & Ha & Hb). destruct a as [|c' a].
        -- rewrite append_nil in Hs. subst b. cbn in Hb. congruence.
        -- rewrite append_cons in Hs. injection Hs as <- ->.
           cbn in Ha. apply andb_true_iff in Ha as [_ Ha].
           assert ((a', b') = (a, b)) as [= -> ->] by (by apply IH). done.
    + split.
      * by intros [= <- <-].
      * intros (Hs & Ha & Hb). destruct a as [|c' a].
        -- rewrite append_nil in Hs. by subst.
        -- rewrite append_cons in Hs. injection Hs as <- ->.
           cbn in Ha. by rewrite Hc in Ha.
Qed.

Lemma startswith_app p s :
  Str.startswith p s = true → s = p +:+ Str.drop (String.length p) s.
Proof.
  revert s. induction p as [|a p IH]; intros [|b s]; cbn; try done.
  intros [->%bool_decide_eq_true Hp]%andb_true_iff. rewrite append_cons.
  f_equal. by apply IH.
Qed.

Lemma startswith_append p t : Str.startswith p (p +:+ t) = true.
Proof.
  induction p as [|a p IH]; [done|]. rewrite append_cons. cbn.
  by rewrite bool_decide_eq_true_2, IH.
Qed.

Lemma drop_append p t : Str.drop (String.length p) (p +:+ t) = t.
Proof. induction p as [|a p IH]; [done|]. by rewrite append_cons. Qed.

Lemma after_spec p s t : Str.after p s = Some t ↔ s = p +:+ t.
Proof.
  unfold Str.after. split.
  - destruct (Str.startswith p s) eqn:Hp; [|done]. intros [= <-].
    by apply startswith_app.
  - intros ->. by rewrite startswith_append, drop_append.
Qed.

(** Passing over the rest of a separator is dropping it. *)
Lemma split_go_skip sep n cur s :
  Str.split_go sep n cur s = Str.split_go sep 0 cur (Str.drop n s).
Proof.
  revert n. induction s as [|c s IH]; intros [|n]; try done.
  cbn [Str.split_go Str.drop]. apply IH.
Qed.

Lemma drop_length n s :
  (String.length (Str.drop n s) ≤ String.length s - n)%nat.
Proof.
  revert n. induction s as [|c s IH]; intros [|n]; cbn; try lia. apply IH.
Qed.

Lemma join_cons sep a l :
  l ≠ [] → Str.join sep (a :: l) = a +:+ sep +:+ Str.join sep l.
Proof. by destruct l. Qed.

(** Joining the parts of a split with the separator gives the text back. *)
Lemma join_split_go sep n cur s :
  sep ≠ "" → (String.length s ≤ n)%nat →
  Str.join sep (Str.split_go sep 0 cur s) = String.rev cur +:+ s.
Proof.
  intros Hsep. revert cur s. induction n as [|n IH]; intros cur [|c s] Hn;
    cbn in Hn; try lia.
  - cbn. unfold String.rev. by rewrite rev_app_app.
  - cbn. unfold String.rev. by rewrite rev_app_app.
  - cbn [Str.split_go]. destruct (Str.startswith sep (String c s)) eqn:Hp.
    + rewrite join_cons by apply split_go_nonempty.
      rewrite split_go_skip, IH.
      * apply startswith_app in Hp. rewrite Hp.
        destruct sep as [|a sep]; [done|]. cbn [String.length Str.drop].
        replace (S (String.length sep) - 1)%nat with (String.length sep)
          by lia.
        reflexivity.
      * pose proof (drop_length (String.length sep - 1) s). lia.
    + rewrite IH by lia. apply rev_cons_app.
Qed.

Lemma join_split sep s : sep ≠ "" → Str.join sep (Str.split sep s) = s.
Proof. intros Hsep. by apply (join_split_go sep (String.length s) ""). Qed.

Lemma truthy_Some s : s ≠ "" → truthy (Some s) = true.
Proof. by destruct s. Qed.

Lemma truthy_contains sub s :
  sub ≠ "" → Str.contains sub s = true → truthy (Some s) = true.
Proof. destruct s, sub; done. Qed.

(** ** Loops *)

Lemma for_each_ext {A S} (f g : S → A → result S) acc l :
  (∀ acc x, f acc x = g acc x) → for_each f acc l = for_each g acc l.
Proof.
  intros Hfg. revert acc. induction l as [|x l IH]; intros acc; [done|].
  cbn [for_each]. rewrite Hfg. destruct (g acc x); bind_simpl; auto.
Qed.

Lemma for_each_const {A S} (acc : S) (l : list A) :
  for_each (λ acc _, Return acc) acc l = Return acc.
Proof. induction l; [done|]. by cbn. Qed.

(** A loop that appends the items passing a test is a filter. *)
Lemma for_each_filter {A} (p : A → bool)
    (body : list A → A → result (list A)) acc l :
  (∀ acc x, body acc x = Return (if p x then acc ++ [x] else acc)) →
  for_each body acc l = Return (acc ++ filter (λ x, p x) l).
Proof.
  intros Hb. revert acc. induction l as [|x l IH]; intros acc;
    cbn [for_each].
  - by rewrite app_nil_r.
  - rewrite Hb. bind_simpl. rewrite IH. destruct (p x) eqn:Hp.
    + rewrite filter_cons_True by (by rewrite Hp).
      rewrite <- app_assoc. reflexivity.
    + rewrite filter_cons_False; [done|]. rewrite Hp. intros [].
Qed.

Lemma filter_true {A} (l : list A) : filter (λ _, true) l = l.
Proof.
  induction l as [|x l IH]; [done|]. by rewrite filter_cons_True, IH.
Qed.

(** ** The pattern of the containment form *)

(** The groups [contains_at] gives are those of the one way to read a head
    of [s] as the pattern: the word [contains(], a non-empty run of word
    characters, a comma, whitespace, a quote, a non-empty run without a
    quote, a quote and a closing parenthesis. *)
Lemma contains_at_spec s f v :
  contains_at s = Some (f, v) ↔
  ∃ ws rest,
    s = "contains(" +:+ f +:+ "," +:+ ws +:+ "'" +:+ v +:+ "')" +:+ rest
    ∧ f ≠ "" ∧ Str.all Str.isword f = true
    ∧ Str.all Str.isspace ws = true
    ∧ v ≠ "" ∧ Str.all (Str.isnt "'") v = true.
Proof.
  unfold contains_at. split.
  - destruct (Str.after "contains(" s) as [s1|] eqn:H1; [|done].
    cbn [mbind option_bind].
    destruct (Str.span Str.isword s1) as [f' s2] eqn:H2.
    case_bool_decide as Hf; [done|].
    destruct (Str.after "," s2) as [s3|] eqn:H3; [|done].
    cbn [mbind option_bind].
    destruct (Str.span Str.isspace s3) as [ws s4] eqn:H4.
    destruct (Str.after "'" s4) as [s5|] eqn:H5; [|done].
    cbn [mbind option_bind].
    destruct (Str.span _ s5) as [v' s6] eqn:H6.
    case_bool_decide as Hv; [done|].
    destruct (Str.after "')" s6) as [rest|] eqn:H7; [|done].
    cbn [mbind option_bind]. intros [= <- <-].
    apply after_spec in H1, H3, H5, H7.
    apply span_spec in H2 as (-> & Hwf & _), H4 as (-> & Hws & _),
      H6 as (-> & Hnq & _).
    exists ws, rest. by subst.
  - intros (ws & rest & -> & Hf & Hwf & Hws & Hv & Hnq).
    rewrite (proj2 (after_spec "contains(" _ _) eq_refl).
    cbn [mbind option_bind].
    rewrite (proj2 (span_spec Str.isword _ f
               ("," +:+ ws +:+ "'" +:+ v +:+ "')" +:+ rest))) by done.
    rewrite bool_decide_eq_false_2 by done.
    rewrite (proj2 (after_spec "," _ _) eq_refl). cbn [mbind option_bind].
    rewrite (proj2 (span_spec Str.isspace _ ws
               ("'" +:+ v +:+ "')" +:+ rest))) by done.
    rewrite (proj2 (after_spec "'" _ _) eq_refl). cbn [mbind option_bind].
    rewrite (proj2 (span_spec _ _ v ("')" +:+ rest))) by done.
    rewrite bool_decide_eq_false_2 by done.
    by rewrite (proj2 (after_spec "')" _ _) eq_refl).
Qed.

Lemma search_contains_unfold s :
  search_contains s =
  match contains_at s with
  | Some groups => Some groups
  | None => match s with
            | EmptyString => None
            | String _ s' => search_contains s'
            end
  end.
Proof. by destruct s. Qed.

(** [search_contains] gives the groups of the match with the leftmost
    start. *)
Lemma search_contains_Some s g :
  search_contains s = Some g ↔
  ∃ pre post,
    s = pre +:+ post ∧ contains_at post = Some g
    ∧ ∀ pre' post', s = pre' +:+ post' →
        (String.length pre' < String.length pre)%nat →
        contains_at post' = None.
Proof.
  induction s as [|c s IH]; rewrite search_contains_unfold.
  - split; [done|]. intros (pre & post & Hs & Hg & _).
    destruct pre, post; try done.
  - destruct (contains_at (String c s)) as [g'|] eqn:Hc; split.
    + intros [= ->]. exists "", (String c s). split_and!; [done..|].
      intros ???. cbn. lia.
    + intros (pre & post & Hs & Hg & Hleft). destruct pre as [|c' pre].
      * rewrite append_nil in Hs. subst post. congruence.
      * specialize (Hleft "" (String c s) eq_refl). cbn in Hleft.
        rewrite Hleft in Hc by lia. done.
    + intros (pre & post & -> & Hg & Hleft)%IH.
      exists (String c pre), post. split_and!; [done..|].
      intros [|c' pre'] post' Hs Hlen.
      * rewrite append_nil in Hs. by subst.
      * rewrite append_cons in Hs. injection Hs as <- Hs.
        apply (Hleft pre' post' Hs). cbn in Hlen. lia.
    + intros (pre & post & Hs & Hg & Hleft). destruct pre as [|c' pre].
      * rewrite append_nil in Hs. subst post. congruence.
      * rewrite append_cons in Hs. injection Hs as <- ->.
        apply IH. exists pre, post. split_and!; [done..|].
        intros pre' post' Hs Hlen.
        apply (Hleft (String c pre') post'); [by rewrite append_cons, Hs|].
        cbn. lia.
Qed.

Lemma search_contains_None s :
  search_contains s = None ↔
  ∀ pre post, s = pre +:+ post → contains_at post = None.
Proof.
  induction s as [|c s IH]; rewrite search_contains_unfold.
  - split; [|done]. intros _ pre post Hs. by destruct pre, post.
  - destruct (contains_at (String c s)) as [g'|] eqn:Hc; split.
    + done.
    + intros Hall. by rewrite (Hall "" (String c s)) in Hc.
    + intros Hs [|c' pre] post Hp.
      * rewrite append_nil in Hp. by subst.
      * rewrite append_cons in Hp. injection Hp as <- Hp.
        by apply (proj1 IH Hs pre post).
    + intros Hall. apply IH. intros pre post ->.
      apply (Hall (String c pre) post). by rewrite append_cons.
Qed.

(** ** parse_filter: its four outcomes *)

(** The equality form, when the text splits in two at " eq ". *)
Lemma parse_filter_eq_form `{Model A} s F V (data : list A) :
  Str.split " eq " s = [F; V] →
  parse_filter (Some s) data =
    Return (filter (λ r, field_iequals (Str.strip F)
                           (Str.strip_by Str.isquote (Str.strip V)) r) data).
Proof.
  intros Hs. pose proof (split_two_contains _ _ _ _ Hs) as Hc.
  unfold parse_filter. rewrite (truthy_contains " eq " s) by done.
  cbn [negb from_option id].
  rewrite (for_each_filter (field_iequals (Str.strip F)
             (Str.strip_by Str.isquote (Str.strip V)))); [done|].
  intros acc x. cbv beta zeta. rewrite Hc, Hs. cbn [unpack2]. bind_simpl.
  unfold field_iequals. destruct (dict x !! Str.strip F); [|done].
  by case_bool_decide.
Qed.

(** The containment form, when the pattern is found. *)
Lemma parse_filter_contains_form `{Model A} s F V (data : list A) :
  Str.contains " eq " s = false →
  Str.contains "contains(" s = true →
  search_contains s = Some (F, V) →
  parse_filter (Some s) data =
    Return (filter (λ r, field_icontains F V r) data).
Proof.
  intros He Hc Hm. unfold parse_filter.
  rewrite (truthy_contains "contains(" s) by done.
  cbn [negb from_option id].
  rewrite (for_each_filter (field_icontains F V)); [done|].
  intros acc x. cbv beta zeta. rewrite He, Hc, Hm.
  unfold field_icontains. destruct (dict x !! F); [|done].
  by case_match.
Qed.

(** The text has "contains(" but the pattern is not found: nothing is
    kept. *)
Lemma parse_filter_contains_unmatched `{Model A} s (data : list A) :
  Str.contains " eq " s = false →
  Str.contains "contains(" s = true →
  search_contains s = None →
  parse_filter (Some s) data = Return [].
Proof.
  intros He Hc Hm. unfold parse_filter.
  rewrite (truthy_contains "contains(" s) by done.
  cbn [negb from_option id].
  rewrite <- (for_each_const (A:=A) [] data). apply for_each_ext.
  intros acc x. cbv beta zeta. by rewrite He, Hc, Hm.
Qed.

(** Neither token occurs: everything is kept. *)
Lemma parse_filter_fallback `{Model A} s (data : list A) :
  Str.contains " eq " s = false →
  Str.contains "contains(" s = false →
  parse_filter (Some s) data = Return data.
Proof.
  intros He Hc. unfold parse_filter. destruct (truthy (Some s)); [|done].
  cbn [negb from_option id]. rewrite (for_each_filter (λ _, true)).
  - by rewrite filter_true.
  - intros acc x. cbv beta zeta. by rewrite He, Hc.
Qed.

Lemma parse_filter_absent `{Model A} (data : list A) :
  parse_filter None data = Return data
  ∧ parse_filter (Some "") data = Return data.
Proof. done. Qed.

(** parse_filter raises exactly when there is an item to look at and the
    text splits at " eq " into more than two parts. *)
Lemma parse_filter_raises_iff `{Model A} s (data : list A) :
  (∃ e, parse_filter (Some s) data = Raise e) ↔
  data ≠ [] ∧ (2 < length (Str.split " eq " s))%nat.
Proof.
  split.
  - intros [e He].
    destruct (Str.contains " eq " s) eqn:Hc.
    + pose proof (split_go_two " eq " "" s ltac:(done) Hc) as Hlen.
      fold (Str.split " eq " s) in Hlen. split.
      * intros ->. by destruct s.
      * destruct (Str.split " eq " s) as [|a [|b [|c l]]] eqn:Hs;
          cbn in Hlen |- *; try lia.
        by rewrite (parse_filter_eq_form s a b) in He.
    + destruct (Str.contains "contains(" s) eqn:Hc'.
      * destruct (search_contains s) as [[F V]|] eqn:Hm.
        -- by rewrite (parse_filter_contains_form s F V) in He.
        -- by rewrite parse_filter_contains_unmatched in He.
      * by rewrite parse_filter_fallback in He.
  - intros [Hd Hlen]. exists ValueError.
    destruct data as [|x data]; [done|].
    assert (Str.contains " eq " s = true) as Hc.
    { destruct (Str.contains " eq " s) eqn:Hc; [done|].
      apply (split_go_one " eq " "") in Hc.
      fold (Str.split " eq " s) in Hc. lia. }
    unfold parse_filter. rewrite (truthy_contains " eq " s) by done.
    cbn [negb from_option id for_each]. rewrite Hc.
    by destruct (Str.split " eq " s) as [|a [|b [|c l]]]; cbn in Hlen;
      try lia.
Qed.

(** The sample customers under three filters.  The last is the example of
    the root endpoint: the Status of a customer is an enum member, whose
    string form is not its value, and no customer is kept. *)
Example filter_sample :
  map CustomerID <$> parse_filter (Some "City eq 'Berlin'") customers_data
  = Return [3]
  ∧ map CustomerID
      <$> parse_filter (Some "contains(CustomerName, 'tech')") customers_data
    = Return [1]
  ∧ map CustomerID <$> parse_filter (Some "Status eq 'Active'") customers_data
    = Return [].
Proof. by vm_compute. Qed.

(** C1.  The specification has it that no filter text makes the filter
    stage raise.  The code unpacks the result of [split(" eq ")] into two
    names: with a text that has the token twice, here two equalities
    joined by [and], and at least one record to look at, parse_filter
    raises ValueError. *)
Theorem C1_filter_repeated_eq_raises `{Model A} (item : A) (data : list A) :
  parse_filter (Some "City eq 'Berlin' and Country eq 'Germany'")
    (item :: data)
  = Raise ValueError.
Proof. reflexivity. Qed.

(** C2.  The specification has it that a text fitting neither form keeps
    every record, also when it has "contains(" without fitting the pattern.
    For such a text, here [contains(CustomerName,Tech)] with the quotes
    missing, parse_filter keeps no record at all. *)
Theorem C2_unmatched_contains_keeps_nothing `{Model A} (data : list A) :
  parse_filter (Some "contains(CustomerName,Tech)") data = Return [].
Proof. by apply parse_filter_contains_unmatched. Qed.

(** C4 as stated fails: filtering the sample customers with the text
    [City eq 'Berlin'], that is F = City and V = 'Berlin' with its quotes,
    does not give the records whose City equals V up to case (there are
    none); it gives the customer of Berlin. *)
Lemma C4_eq_filter_as_stated_fails :
  parse_filter (Some ("City" +:+ " eq " +:+ "'Berlin'")) customers_data
  ≠ Return (filter (λ r, field_iequals "City" "'Berlin'" r) customers_data).
Proof. vm_compute. discriminate. Qed.

(** C4, amended.  For every record list R and texts F and V such that
    "F eq V" splits at " eq " into exactly F and V, filtering with "F eq V"
    returns, in the original order, the records that have the field named
    by F trimmed and whose string form of it equals, up to case, V trimmed
    and with its leading and trailing quote characters removed. *)
Theorem C4_eq_filter `{Model A} (R : list A) (F V : string) :
  Str.split " eq " (F +:+ " eq " +:+ V) = [F; V] →
  parse_filter (Some (F +:+ " eq " +:+ V)) R =
    Return (filter (λ r, field_iequals (Str.strip F)
                           (Str.strip_by Str.isquote (Str.strip V)) r) R).
Proof. apply parse_filter_eq_form. Qed.

Lemma C4_eq_filter_witness :
  Str.split " eq " ("City" +:+ " eq " +:+ "'Berlin'") = ["City"; "'Berlin'"]
  ∧ parse_filter (Some ("City" +:+ " eq " +:+ "'Berlin'")) customers_data =
      Return (filter (λ r, field_iequals "City" "Berlin" r) customers_data).
Proof.
  split; [reflexivity|].
  apply (C4_eq_filter customers_data "City" "'Berlin'"). reflexivity.
Defined.

(** ** The record store *)

Lemma existsb_id (id : Z) (s : list Customer) :
  existsb (λ c, bool_decide (CustomerID c = id)) s = true
  ↔ id ∈ CustomerID <$> s.
Proof.
  rewrite existsb_exists, list_elem_of_fmap. split.
  - intros (c & Hin & Hc). apply bool_decide_eq_true in Hc.
    exists c. split; [done|]. by apply list_elem_of_In.
  - intros (c & -> & Hin). exists c. split; [by apply list_elem_of_In|].
    by apply bool_decide_eq_true.
Qed.

Lemma find_id_None (id : Z) (s : list Customer) :
  list_find (λ c, CustomerID c = id) s = None ↔ id ∉ CustomerID <$> s.
Proof.
  rewrite list_find_None, list_elem_of_fmap, Forall_forall. split.
  - intros Hall (c & -> & Hin). by apply (Hall c).
  - intros Hno c Hin Hc. apply Hno. by exists c.
Qed.

Lemma find_id_Some (id : Z) (s : list Customer) i c :
  list_find (λ c, CustomerID c = id) s = Some (i, c) →
  s !! i = Some c ∧ CustomerID c = id.
Proof. intros Hf. apply list_find_Some in Hf. tauto. Qed.

Lemma find_id_is_Some (id : Z) (s : list Customer) :
  id ∈ CustomerID <$> s →
  ∃ i c, list_find (λ c, CustomerID c = id) s = Some (i, c).
Proof.
  intros Hin. destruct (list_find _ s) as [[i c]|] eqn:Hf; [by eauto|].
  by apply find_id_None in Hf.
Qed.

(** Create and delete keep the identities distinct, and so does a replace
    whose body carries the id of the path. *)
Lemma create_customer_unique c s :
  unique_ids s → unique_ids (create_customer c s).2.
Proof.
  unfold unique_ids, create_customer. intros Hs.
  destruct (existsb _ s) eqn:He; [done|]. cbn [snd].
  rewrite fmap_app. apply NoDup_app.
  split_and!; [done| |apply NoDup_singleton].
  intros x Hx Hx'. apply list_elem_of_singleton in Hx' as ->.
  apply existsb_id in Hx. congruence.
Qed.

Lemma delete_customer_unique id s :
  unique_ids s → unique_ids (delete_customer id s).2.
Proof.
  unfold unique_ids, delete_customer. intros Hs.
  destruct (list_find _ s) as [[i c]|]; [|done]. cbn [snd].
  rewrite list_fmap_delete. eapply sublist_NoDup; [done|].
  apply sublist_delete.
Qed.

Lemma update_customer_unique id c s :
  CustomerID c = id → unique_ids s → unique_ids (update_customer id c s).2.
Proof.
  unfold unique_ids, update_customer. intros Hc Hs.
  destruct (list_find _ s) as [[i c0]|] eqn:Hf; [|done]. cbn [snd].
  apply find_id_Some in Hf as [Hi Hc0].
  rewrite list_fmap_insert, list_insert_id; [done|].
  rewrite list_lookup_fmap, Hi. cbn. congruence.
Qed.

(** Starting from the sample data, any sequence of requests whose replaces
    keep the id of their path leaves the identities distinct. *)
Lemma unique_ids_sample : unique_ids customers_data.
Proof. unfold unique_ids. apply (bool_decide_unpack _). by vm_compute. Qed.

Lemma serve_unique (s : list Customer) (r : request) :
  keeps_id r → unique_ids s → unique_ids (serve s r).
Proof.
  destruct r as [c|id c|id]; cbn [serve keeps_id]; intros Hr Hs.
  - by apply create_customer_unique.
  - by apply update_customer_unique.
  - by apply delete_customer_unique.
Qed.

Lemma unique_ids_invariant (requests : list request) :
  Forall keeps_id requests →
  unique_ids (foldl serve customers_data requests).
Proof.
  intros Hall. generalize unique_ids_sample.
  generalize customers_data as s.
  induction Hall as [|r requests Hr _ IH]; intros s Hs; [done|].
  cbn [foldl]. apply IH. by apply serve_unique.
Qed.

(** C3.  The specification has it that no sequence of create, replace and
    delete makes two customers share a CustomerID, also when the body of a
    replace carries another id than the path.  The sample data has
    distinct ids; PUT /odata/Customers(1) with a body whose CustomerID is
    2 succeeds and leaves the ids 2, 2, 3, 4. *)
Theorem C3_replace_duplicates_id :
  unique_ids customers_data ∧
  ∃ r s, update_customer 1 renumbered customers_data = (Return r, s)
         ∧ CustomerID <$> s = [2; 2; 3; 4]
         ∧ ¬ unique_ids s.
Proof.
  split; [apply unique_ids_sample|].
  eexists _, _. split; [reflexivity|]. split; [reflexivity|].
  unfold unique_ids. intros Hn. cbn in Hn.
  apply NoDup_cons in Hn as [Hn _]. apply Hn. left.
Qed.

(** C8.  Create fails with status 400 (DuplicateKey) exactly when the
    CustomerID is already present, and appends the record otherwise;
    replace and delete fail with status 404 (NotFound) exactly when the
    id is absent; a failure leaves the list as it was.  On success
    replace and delete act on the first record with the id. *)
Theorem C8_store_errors (c : Customer) (id : Z) (s : list Customer) :
  (CustomerID c ∈ CustomerID <$> s →
     create_customer c s
     = (Raise (HTTPException 400 "Customer ID already exists"), s)) ∧
  (CustomerID c ∉ CustomerID <$> s →
     ∃ r, create_customer c s = (Return r, s ++ [c])) ∧
  (id ∉ CustomerID <$> s →
     update_customer id c s
     = (Raise (HTTPException 404 "Customer not found"), s) ∧
     delete_customer id s
     = (Raise (HTTPException 404 "Customer not found"), s)) ∧
  (id ∈ CustomerID <$> s →
     ∃ i c0 r r', s !! i = Some c0 ∧ CustomerID c0 = id ∧
       update_customer id c s = (Return r, <[i := c]> s) ∧
       delete_customer id s = (Return r', delete i s)).
Proof.
  split_and!.
  - intros Hin. unfold create_customer. apply existsb_id in Hin.
    by rewrite Hin.
  - intros Hnin. unfold create_customer. destruct (existsb _ s) eqn:He.
    + by apply existsb_id in He.
    + by eexists.
  - intros Hnin. apply find_id_None in Hnin.
    unfold update_customer, delete_customer. by rewrite Hnin.
  - intros Hin. unfold update_customer, delete_customer.
    destruct (list_find _ s) as [[i c0]|] eqn:Hf.
    + apply find_id_Some in Hf as [Hi Hc0]. by eexists i, c0, _, _.
    + by apply find_id_None in Hf.
Qed.

Lemma C8_store_errors_witness :
  create_customer renumbered customers_data
  = (Raise (HTTPException 400 "Customer ID already exists"), customers_data)
  ∧ update_customer 9 renumbered customers_data
    = (Raise (HTTPException 404 "Customer not found"), customers_data)
  ∧ delete_customer 9 customers_data
    = (Raise (HTTPException 404 "Customer not found"), customers_data).
Proof.
  destruct (C8_store_errors renumbered 9 customers_data)
    as (Hdup & _ & Habsent & _).
  split.
  - apply Hdup. apply (bool_decide_unpack _). vm_compute. exact I.
  - apply Habsent. apply (bool_decide_unpack _). vm_compute. exact I.
Defined.

(** ** Projection *)

Lemma select_fields_acc {V} (fields : list string) (d acc : gmap string V) k :
  foldl (λ acc field, match d !! field with
                      | Some v => <[field := v]> acc
                      | None => acc
                      end) acc fields !! k =
  match (if bool_decide (k ∈ fields) then d !! k else None) with
  | Some v => Some v
  | None => acc !! k
  end.
Proof.
  revert acc. induction fields as [|f fields IH]; intros acc; [done|].
  cbn [foldl]. rewrite IH.
  destruct (decide (k = f)) as [->|Hne].
  - rewrite (bool_decide_eq_true_2 (f ∈ f :: fields)) by left.
    case_bool_decide; destruct (d !! f) as [v|];
      by rewrite ?lookup_insert_eq.
  - case_bool_decide as Hin.
    + rewrite bool_decide_eq_true_2 by (by right).
      destruct (d !! k); [done|].
      destruct (d !! f) as [v|]; by rewrite ?lookup_insert_ne.
    + rewrite bool_decide_eq_false_2 by (by intros [?|?]%elem_of_cons).
      destruct (d !! f) as [v|]; by rewrite ?lookup_insert_ne.
Qed.

(** The comprehension keeps the entries of [d] under the names asked
    for. *)
Lemma select_fields_lookup {V} (fields : list string) (d : gmap string V) k :
  select_fields fields d !! k
  = if bool_decide (k ∈ fields) then d !! k else None.
Proof.
  unfold select_fields. rewrite select_fields_acc, lookup_empty.
  case_bool_decide; [|done]. by destruct (d !! k).
Qed.

(** C7.  For a non-empty select list, parse_select gives for each record,
    in order, a mapping that has under a name what the record has under
    it when the name is among those asked for (split at the commas and
    trimmed), and nothing otherwise: unknown names are dropped without an
    error and no field is introduced.  On a customer the list
    [CustomerName,Bogus] gives the one key CustomerName. *)
Theorem C7_select_projects `{Model A} (select_str : string) (data : list A) :
  select_str ≠ "" →
  Forall2 (λ item m, ∀ k : string,
             m !! k = if bool_decide (k ∈ fields_of select_str)
                      then dict item !! k else None)
    data (parse_select (Some select_str) data)
  ∧ ∀ c : Customer,
      parse_select (Some "CustomerName,Bogus") [c]
      = [{[ "CustomerName" := VStr (CustomerName c) ]}].
Proof.
  intros Hne. split.
  - unfold parse_select. rewrite truthy_Some by done.
    cbn [negb from_option id].
    apply Forall2_fmap_r, Forall_Forall2_diag, Forall_forall.
    intros item _ k. apply select_fields_lookup.
  - intros c. reflexivity.
Qed.

Lemma C7_select_projects_witness :
  "CustomerName,Bogus" ≠ ""
  ∧ Forall2 (λ item m, ∀ k : string,
               m !! k = if bool_decide (k ∈ ["CustomerName"; "Bogus"])
                        then dict item !! k else None)
      customers_data
      (parse_select (Some "CustomerName,Bogus") customers_data).
Proof.
  split; [done|].
  apply (C7_select_projects (A:=Customer) "CustomerName,Bogus"
           customers_data).
  done.
Defined.

(** ** Pagination and count *)

Lemma slice_from_nonneg {A} (l : list A) i :
  0 ≤ i → slice_from l i = drop (Z.to_nat i) l.
Proof.
  intros Hi. unfold slice_from, slice_index.
  by rewrite bool_decide_eq_false_2 by lia.
Qed.

Lemma slice_to_nonneg {A} (l : list A) i :
  0 ≤ i → slice_to l i = take (Z.to_nat i) l.
Proof.
  intros Hi. unfold slice_to, slice_index.
  by rewrite bool_decide_eq_false_2 by lia.
Qed.

(** The two slicing steps of the handlers compute the page. *)
Lemma paginate_page {A} (skip top : option Z) (l : list A) :
  0 ≤ default 0 skip → 0 ≤ default 0 top →
  (let l1 := if truthy_int skip then slice_from l (default 0 skip) else l in
   if truthy_int top then slice_to l1 (default 0 top) else l1)
  = page skip top l.
Proof.
  intros Hs Ht. cbv zeta. unfold page.
  assert ((if truthy_int skip then slice_from l (default 0 skip) else l)
          = drop (Z.to_nat (default 0 skip)) l) as ->.
  { destruct skip as [n|]; cbn in *; [|done].
    case_bool_decide; cbn; [by subst|]. by apply slice_from_nonneg. }
  destruct top as [n|]; cbn in *; [|done].
  case_bool_decide; cbn; [done|]. by apply slice_to_nonneg.
Qed.

(** C5.  When filter and order give the list [ordered_data], the handler
    returns; the count it reports, when asked for one, is the length of
    [ordered_data] whatever skip and top are; and for skip and top that
    are absent or not negative the records it projects are the page:
    [ordered_data] without its first skip elements, cut to the first top
    of the rest, a zero or absent value leaving its step out. *)
Theorem C5_page_and_count (customers_data : list Customer)
    (filter_ select orderby : option string) (top skip : option Z)
    (with_count : option bool) (ordered_data : list Customer) :
  parse_filter filter_ customers_data ≫= parse_orderby orderby
    = Return ordered_data →
  ∃ r, get_customers customers_data filter_ select orderby top skip with_count
       = Return r
     ∧ count r
       = (if default false with_count
          then Some (Z.of_nat (length ordered_data)) else None)
     ∧ (0 ≤ default 0 skip → 0 ≤ default 0 top →
        value r = parse_select select (page skip top ordered_data)).
Proof.
  intros Hq. unfold get_customers.
  destruct (parse_filter filter_ customers_data) as [fd|]; [|done].
  bind_simpl. cbn [mbind result_bind] in Hq. rewrite Hq. bind_simpl.
  eexists. split; [reflexivity|]. split; [done|]. intros Hs Ht.
  cbn [value]. f_equal. by apply paginate_page.
Qed.

Lemma C5_page_and_count_witness :
  ∃ r, get_customers customers_data None None None (Some 2) (Some 1)
         (Some true) = Return r
     ∧ count r = Some 4
     ∧ value r = dict <$> take 2 (drop 1 customers_data).
Proof.
  destruct (C5_page_and_count customers_data None None None (Some 2)
              (Some 1) (Some true) customers_data eq_refl)
    as (r & Hr & Hcount & Hvalue).
  exists r. split; [exact Hr|]. split; [exact Hcount|].
  apply Hvalue; cbn; lia.
Defined.

(** GET /odata/Orders pages and counts in the same way. *)
Lemma get_orders_page_and_count (orders_data : list Order)
    (filter_ select orderby : option string) (top skip : option Z)
    (with_count : option bool) (ordered_data : list Order) :
  parse_filter filter_ orders_data ≫= parse_orderby orderby
    = Return ordered_data →
  ∃ r, get_orders orders_data filter_ select orderby top skip with_count
       = Return r
     ∧ count r
       = (if default false with_count
          then Some (Z.of_nat (length ordered_data)) else None)
     ∧ (0 ≤ default 0 skip → 0 ≤ default 0 top →
        value r = parse_select select (page skip top ordered_data)).
Proof.
  intros Hq. unfold get_orders.
  destruct (parse_filter filter_ orders_data) as [fd|]; [|done].
  bind_simpl. cbn [mbind result_bind] in Hq. rewrite Hq. bind_simpl.
  eexists. split; [reflexivity|]. split; [done|]. intros Hs Ht.
  cbn [value]. f_equal. by apply paginate_page.
Qed.

(** A negative skip is a slice from the end, not a drop from the front. *)
Example negative_skip_counts_from_the_end :
  slice_from [1; 2; 3; 4] (-1) = [4] ∧ slice_to [1; 2; 3; 4] (-1) = [1; 2; 3].
Proof. done. Qed.

(** ** Expansion and selection of one customer *)

(** C9.  On the sample data, customer 1 with the directive [Orders] gets
    under the key Orders the full mappings of the orders whose CustomerID
    is 1, which are the orders 1001 and 1003 in that order.  For any
    data, a directive without the text Orders gives what no directive
    gives, and for a customer that exists that is its own mapping,
    returned normally. *)
Theorem C9_expand_orders :
  (∃ c o1 o3,
     customers_data !! 0%nat = Some c ∧ CustomerID c = 1 ∧
     filter (λ o, Order_CustomerID o = 1) orders_data = [o1; o3] ∧
     OrderID o1 = 1001 ∧ OrderID o3 = 1003 ∧
     get_customer_by_id customers_data orders_data 1 None (Some "Orders")
     = Return (<["Orders" := Records [dict o1; dict o3]]>
                 (Field <$> dict c))) ∧
  (∀ (customers_data : list Customer) (orders_data : list Order)
     customer_id select expand,
     Str.contains "Orders" expand = false →
     get_customer_by_id customers_data orders_data customer_id select
       (Some expand)
     = get_customer_by_id customers_data orders_data customer_id select
         None) ∧
  (∀ (customers_data : list Customer) (orders_data : list Order)
     customer_id expand,
     customer_id ∈ CustomerID <$> customers_data →
     Str.contains "Orders" expand = false →
     ∃ c, c ∈ customers_data ∧ CustomerID c = customer_id ∧
       get_customer_by_id customers_data orders_data customer_id None
         (Some expand)
       = Return (Field <$> dict c)).
Proof.
  split_and!.
  - eexists _, _, _. split_and!; reflexivity.
  - intros cs os cid select expand He. unfold get_customer_by_id.
    destruct (list_find _ cs) as [[i c]|]; [|done].
    cbn [from_option id truthy]. rewrite He. by rewrite andb_false_r.
  - intros cs os cid expand Hin He.
    apply find_id_is_Some in Hin as (i & c & Hfind).
    pose proof Hfind as (Hi & Hc & _)%list_find_Some.
    exists c. split_and!; [by eapply list_elem_of_lookup_2|done|].
    unfold get_customer_by_id. rewrite Hfind. cbn [from_option id truthy].
    rewrite He. by rewrite andb_false_r.
Qed.

Lemma C9_expand_orders_witness :
  ∃ c, c ∈ customers_data ∧ CustomerID c = 3 ∧
    get_customer_by_id customers_data orders_data 3 None (Some "orders")
    = Return (Field <$> dict c).
Proof.
  destruct C9_expand_orders as (_ & _ & Hnone).
  apply (Hnone customers_data orders_data 3 "orders"); [|reflexivity].
  apply (bool_decide_unpack _). vm_compute. exact I.
Defined.

(** C10.  For a customer that exists, an expand text with Orders in it
    and a non-empty select list that does not name Orders, the handler
    returns a mapping with no key Orders: the selection runs on the
    expanded mapping and drops the orders. *)
Theorem C10_select_drops_expansion (customers_data : list Customer)
    (orders_data : list Order) (customer_id : Z) (select expand : string) :
  customer_id ∈ CustomerID <$> customers_data →
  Str.contains "Orders" expand = true →
  select ≠ "" →
  "Orders" ∉ fields_of select →
  ∃ m, get_customer_by_id customers_data orders_data customer_id
         (Some select) (Some expand) = Return m
       ∧ m !! "Orders" = None.
Proof.
  intros Hin He Hs Hf. apply find_id_is_Some in Hin as (i & c & Hfind).
  unfold get_customer_by_id. rewrite Hfind, (truthy_Some select) by done.
  eexists. split; [reflexivity|]. cbn [from_option id].
  rewrite select_fields_lookup. by rewrite bool_decide_eq_false_2.
Qed.

Lemma C10_select_drops_expansion_witness :
  ∃ m, get_customer_by_id customers_data orders_data 1
         (Some "CustomerName, Email") (Some "Orders") = Return m
       ∧ m !! "Orders" = None.
Proof.
  apply C10_select_drops_expansion.
  - apply (bool_decide_unpack _). vm_compute. exact I.
  - reflexivity.
  - done.
  - apply (bool_decide_unpack _). vm_compute. exact I.
Defined.

(** ** Ordering *)

(** *** Values that are equal are not ordered *)








(** *** The orders that [<] decides *)

Lemma total_order_no_less {A} (cmp : A → A → comparison) :
  total_order cmp → no_less_trans cmp.
Proof.
  intros (Heq & Hanti & Htrans) x y z Hzy Hyx Hzx.
  destruct (cmp z y) eqn:Ezy; [|done|].
  - apply Heq in Ezy as ->. done.
  - destruct (cmp y x) eqn:Eyx; [|done|].
    + apply Heq in Eyx as ->. congruence.
    + pose proof (Htrans _ _ _ _ Ezy Eyx). congruence.
Qed.

Lemma N_compare_total : total_order N.compare.
Proof.
  split_and!.
  - apply N.compare_eq_iff.
  - intros x y. apply N.compare_antisym.
  - intros x y z [];
      rewrite ?N.compare_eq_iff, ?N.compare_lt_iff, ?N.compare_gt_iff; lia.
Qed.

Lemma ascii_compare_total : total_order Ascii.compare.
Proof.
  split_and!.
  - intros x y. split; [apply Ascii.compare_eq_iff|intros ->].
    unfold Ascii.compare. apply N.compare_refl.
  - intros x y. apply Ascii.compare_antisym.
  - unfold Ascii.compare. intros x y z c. apply N_compare_total.
Qed.

Lemma string_compare_list s t :
  String.compare s t
  = list_compare Ascii.compare (list_ascii_of_string s)
      (list_ascii_of_string t).
Proof.
  revert t. induction s as [|a s IH]; intros [|b t]; cbn; try done.
  by rewrite IH.
Qed.

Lemma list_compare_total {A} (cmp : A → A → comparison) :
  total_order cmp → total_order (list_compare cmp).
Proof.
  intros (Heq & Hanti & Htrans). split_and!.
  - by apply list_compare_refl.
  - intros x y. by apply list_compare_antisym.
  - intros x y z c. by apply list_compare_trans.
Qed.

Lemma string_compare_total : total_order String.compare.
Proof.
  destruct (list_compare_total _ ascii_compare_total)
    as (Heq & Hanti & Htrans).
  split_and!.
  - intros s t. rewrite string_compare_list, Heq. split; [|by intros ->].
    intros Hl. by rewrite <- (string_of_list_ascii_of_string s), Hl,
      string_of_list_ascii_of_string.
  - intros s t. rewrite !string_compare_list. apply Hanti.
  - intros s t u c. rewrite !string_compare_list. apply Htrans.
Qed.

Lemma number_compare_no_less : no_less_trans number_compare.
Proof.
  intros [|x|] [|y|] [|z|]; cbn; try done.
  rewrite <- !Qge_alt. intros Hzy Hyx. by eapply Qle_trans.
Qed.

Lemma number_compare_asym x y :
  number_compare y x = Lt → number_compare x y ≠ Lt.
Proof.
  destruct x as [|x|], y as [|y|]; cbn; try done.
  rewrite <- !Qlt_alt. intros H1 H2. apply (Qlt_irrefl x). by eapply Qlt_trans.
Qed.

Lemma total_order_asym {A} (cmp : A → A → comparison) x y :
  total_order cmp → cmp y x = Lt → cmp x y ≠ Lt.
Proof. intros (_ & Hanti & _) Hyx. rewrite Hanti, Hyx. done. Qed.

(** [<] on values: what is not less stays not less along a chain, and
    what is less is not greater. *)
Lemma lt_false_trans x y z :
  Py.lt z y = Return false → Py.lt y x = Return false →
  Py.lt z x = Return false.
Proof.
  unfold Py.lt, Py.compare.
  destruct (Py.operand_of x), (Py.operand_of y), (Py.operand_of z);
    cbn [Py.operand_compare]; try done;
    intros [= Hzy%bool_decide_eq_false] [= Hyx%bool_decide_eq_false];
    f_equal; apply bool_decide_eq_false; revert Hzy Hyx.
  - apply number_compare_no_less.
  - apply total_order_no_less, string_compare_total.
  - apply total_order_no_less, list_compare_total, N_compare_total.
  - apply total_order_no_less, list_compare_total, string_compare_total.
Qed.

Lemma lt_true_asym x y :
  Py.lt y x = Return true → Py.lt x y = Return false.
Proof.
  unfold Py.lt, Py.compare.
  destruct (Py.operand_of x), (Py.operand_of y);
    cbn [Py.operand_compare]; try done;
    intros [= Hyx%bool_decide_eq_true];
    f_equal; apply bool_decide_eq_false; revert Hyx.
  - apply number_compare_asym.
  - apply total_order_asym, string_compare_total.
  - apply total_order_asym, list_compare_total, N_compare_total.
  - apply total_order_asym, list_compare_total, string_compare_total.
Qed.

(** *** The sort permutes its input and keeps each class of keys in order *)

Section stability.
Context {A : Type} (P : Any → bool).
Hypothesis P_unordered :
  ∀ a b, P a = true → P b = true → Py.lt b a ≠ Return true.

Lemma insert_perm (x : Any * A) l l' :
  Py.insert x l = Return l' → l' ≡ₚ x :: l.
Proof.
  revert l'. induction l as [|y l IH]; intros l'; cbn [Py.insert].
  - by intros [= <-].
  - destruct (Py.lt y.1 x.1) as [[]|]; bind_simpl;
      [|by intros [= <-]|done].
    destruct (Py.insert x l) as [l''|]; bind_simpl; [|done].
    intros [= <-]. rewrite (IH l'') by done. apply Permutation_swap.
Qed.

Lemma insert_stable (x : Any * A) l l' :
  Py.insert x l = Return l' →
  filter (λ p, P p.1) l' = filter (λ p, P p.1) (x :: l).
Proof.
  revert l'. induction l as [|y l IH]; intros l'; cbn [Py.insert].
  - by intros [= <-].
  - destruct (Py.lt y.1 x.1) as [[]|] eqn:Hlt; bind_simpl;
      [|by intros [= <-]|done].
    destruct (Py.insert x l) as [l''|]; bind_simpl; [|done].
    intros [= <-]. rewrite !filter_cons, (IH l'') by done.
    rewrite filter_cons.
    destruct (decide (P y.1)) as [Hy|Hy], (decide (P x.1)) as [Hx|Hx];
      try done.
    apply Is_true_true in Hx, Hy. by destruct (P_unordered _ _ Hx Hy).
Qed.

Lemma sort_perm (l s : list (Any * A)) : Py.sort l = Return s → s ≡ₚ l.
Proof.
  revert s. induction l as [|x l IH]; intros s; cbn [Py.sort].
  - by intros [= <-].
  - destruct (Py.sort l) as [s'|]; bind_simpl; [|done].
    intros Hi%insert_perm. by rewrite Hi, (IH s').
Qed.

Lemma sort_stable (l s : list (Any * A)) :
  Py.sort l = Return s → filter (λ p, P p.1) s = filter (λ p, P p.1) l.
Proof.
  revert s. induction l as [|x l IH]; intros s; cbn [Py.sort].
  - by intros [= <-].
  - destruct (Py.sort l) as [s'|]; bind_simpl; [|done].
    intros Hi%insert_stable. by rewrite Hi, !filter_cons, (IH s').
Qed.

Context (key : A → result Any).

Lemma map_result_keyed data l :
  map_result (λ x, k ← key x; Return (k, x)) data = Return l →
  l.*2 = data ∧ Forall (keyed key) l.
Proof.
  revert l. induction data as [|x data IH]; intros l; cbn [map_result].
  - by intros [= <-].
  - destruct (key x) as [k|] eqn:Hk; bind_simpl; [|done].
    destruct (map_result _ data) as [l'|]; bind_simpl; [|done].
    intros [= <-]. destruct (IH l') as [<- Hall]; [done|].
    split; [done|]. by constructor.
Qed.

Lemma filter_keyed l :
  Forall (keyed key) l →
  filter (λ x, key_in P key x) l.*2 = (filter (λ p, P p.1) l).*2.
Proof.
  induction 1 as [|p l Hp _ IH]; [done|].
  cbn [fmap list_fmap]. rewrite !filter_cons, IH.
  unfold key_in. rewrite Hp. by destruct (decide (P p.1)).
Qed.

Lemma sorted_stable data reverse out :
  Py.sorted data key reverse = Return out →
  out ≡ₚ data
  ∧ filter (λ x, key_in P key x) out = filter (λ x, key_in P key x) data.
Proof.
  unfold Py.sorted.
  destruct (map_result _ data) as [l|] eqn:Hl; bind_simpl; [|done].
  apply map_result_keyed in Hl as [<- Hall]. destruct reverse.
  - destruct (Py.sort (list.reverse l)) as [s|] eqn:Hs; bind_simpl;
      [|done].
    intros [= <-]. pose proof (sort_perm _ _ Hs) as Hp. split.
    + by rewrite reverse_Permutation, Hp, reverse_Permutation.
    + rewrite !filter_keyed; [|done|].
      * by rewrite filter_reverse, (sort_stable _ _ Hs), filter_reverse,
          reverse_involutive.
      * by rewrite reverse_Permutation, Hp, reverse_Permutation.
  - destruct (Py.sort l) as [s|] eqn:Hs; bind_simpl; [|done].
    intros [= <-]. pose proof (sort_perm _ _ Hs) as Hp. split.
    + by rewrite Hp.
    + rewrite !filter_keyed; [|done|by rewrite Hp].
      by rewrite (sort_stable _ _ Hs).
Qed.

End stability.

(** *** The sort returns when its keys can be ordered, and orders them *)

Section sortedness.
Context {A : Type}.

Lemma insert_Forall (Q : Any * A → Prop) x l l' :
  Py.insert x l = Return l' → Q x → Forall Q l → Forall Q l'.
Proof.
  intros Hi Hx Hl. apply insert_perm in Hi. rewrite Hi. by constructor.
Qed.

Lemma insert_sorted (x : Any * A) l l' :
  StronglySorted not_after l →
  Py.insert x l = Return l' →
  StronglySorted not_after l'.
Proof.
  intros Hl. revert l'.
  induction Hl as [|y l Hl IH Hy]; intros l'; cbn [Py.insert].
  - intros [= <-]. repeat constructor.
  - destruct (Py.lt y.1 x.1) as [[]|] eqn:Hlt; bind_simpl; [| |done].
    + destruct (Py.insert x l) as [l''|] eqn:Hi; bind_simpl; [|done].
      intros [= <-]. constructor; [by apply IH|].
      eapply insert_Forall; [done| |done]. by apply lt_true_asym.
    + intros [= <-]. constructor; [by constructor|].
      constructor; [done|]. eapply Forall_impl; [done|].
      intros z Hz. unfold not_after in *. by eapply lt_false_trans.
Qed.

Lemma sort_sorted (l s : list (Any * A)) :
  Py.sort l = Return s → StronglySorted not_after s.
Proof.
  revert s. induction l as [|x l IH]; intros s; cbn [Py.sort].
  - intros [= <-]. constructor.
  - destruct (Py.sort l) as [s'|]; bind_simpl; [|done].
    apply insert_sorted. by apply IH.
Qed.


Lemma StronglySorted_reverse {B} (R : relation B) (l : list B) :
  StronglySorted R l → StronglySorted (flip R) (list.reverse l).
Proof.
  induction 1 as [|x l Hl IH Hx]; [constructor|].
  rewrite reverse_cons.
  apply StronglySorted_app_2; [|done|repeat constructor].
  intros y x' Hy ->%list_elem_of_singleton. rewrite elem_of_reverse in Hy.
  rewrite Forall_forall in Hx. by apply Hx.
Qed.

Lemma StronglySorted_Forall {B} (Q : B → Prop) (R : relation B)
    (l : list B) :
  Forall Q l → StronglySorted R l →
  StronglySorted (λ p q, Q p ∧ Q q ∧ R p q) l.
Proof.
  intros HQ Hl. induction Hl as [|x l Hl IH Hx]; [constructor|].
  apply Forall_cons in HQ as [Hqx HQ]. constructor; [by apply IH|].
  rewrite Forall_forall in Hx, HQ |- *. intros y Hy. auto.
Qed.

Context (key : A → result Any).

Lemma sorted_ordered data reverse out :
  Py.sorted data key reverse = Return out →
  StronglySorted (in_order key reverse) out.
Proof.
  unfold Py.sorted.
  destruct (map_result _ data) as [l|] eqn:Hl; bind_simpl; [|done].
  apply (map_result_keyed key) in Hl as [_ Hall]. destruct reverse.
  - destruct (Py.sort (list.reverse l)) as [s|] eqn:Hs; bind_simpl;
      [|done].
    intros [= <-]. pose proof (sort_perm _ _ Hs) as Hp.
    assert (Forall (keyed key) s) as Hks
      by (by rewrite Hp, reverse_Permutation).
    apply sort_sorted in Hs.
    apply (StronglySorted_Forall _ _ _ Hks), StronglySorted_reverse in Hs.
    eapply StronglySorted_fmap; [|exact Hs].
    intros p q (Hq & Hp' & Hqp). by exists p.1, q.1.
  - destruct (Py.sort l) as [s|] eqn:Hs; bind_simpl; [|done].
    intros [= <-]. pose proof (sort_perm _ _ Hs) as Hp.
    assert (Forall (keyed key) s) as Hks by (by rewrite Hp).
    apply sort_sorted in Hs.
    apply (StronglySorted_Forall _ _ _ Hks) in Hs.
    eapply StronglySorted_fmap; [|exact Hs].
    intros p q (Hp' & Hq & Hpq). by exists p.1, q.1.
Qed.


Lemma insert_returns (x : Any * A) l :
  (∀ y, y ∈ l → Py.compare y.1 x.1 ≠ None) →
  ∃ l', Py.insert x l = Return l'.
Proof.
  induction l as [|y l IH]; intros Hc; cbn [Py.insert]; [by eexists|].
  unfold Py.lt. destruct (Py.compare y.1 x.1) as [c|] eqn:Hyx.
  - bind_simpl. destruct (bool_decide (c = Lt)); [|by eexists].
    destruct IH as [l' ->]; [|by eexists].
    intros z Hz. apply Hc. by right.
  - by destruct (Hc y); [left|].
Qed.

Lemma sort_returns (l : list (Any * A)) :
  (∀ p q, p ∈ l → q ∈ l → Py.compare p.1 q.1 ≠ None) →
  ∃ s, Py.sort l = Return s.
Proof.
  induction l as [|x l IH]; intros Hc; cbn [Py.sort]; [by eexists|].
  destruct IH as [s Hs].
  { intros p q Hp Hq. apply Hc; by right. }
  rewrite Hs. bind_simpl. apply insert_returns.
  intros y Hy. rewrite (sort_perm _ _ Hs) in Hy. apply Hc; [by right|left].
Qed.

Lemma map_result_returns data :
  (∀ x, x ∈ data → ∃ k, key x = Return k) →
  ∃ l, map_result (λ x, k ← key x; Return (k, x)) data = Return l.
Proof.
  induction data as [|x data IH]; intros Hk; cbn [map_result]; [by eexists|].
  destruct (Hk x) as [k ->]; [left|]. bind_simpl.
  destruct IH as [l ->]; [|by eexists].
  intros y Hy. apply Hk. by right.
Qed.

Lemma sorted_returns data reverse :
  (∀ x, x ∈ data → ∃ k, key x = Return k) →
  (∀ x y kx ky, x ∈ data → y ∈ data →
     key x = Return kx → key y = Return ky → Py.compare kx ky ≠ None) →
  ∃ out, Py.sorted data key reverse = Return out.
Proof.
  intros Hk Hc. unfold Py.sorted.
  destruct (map_result_returns data Hk) as [l Hl]. rewrite Hl. bind_simpl.
  apply map_result_keyed in Hl as [<- Hall].
  assert (∀ p q, p ∈ l → q ∈ l → Py.compare p.1 q.1 ≠ None) as Hcl.
  { rewrite Forall_forall in Hall. intros p q Hp Hq.
    apply (Hc p.2 q.2);
      [by apply list_elem_of_fmap_2|by apply list_elem_of_fmap_2
      |by apply Hall|by apply Hall]. }
  destruct reverse.
  - destruct (sort_returns (list.reverse l)) as [s ->]; [|by eexists].
    intros p q. rewrite !elem_of_reverse. apply Hcl.
  - destruct (sort_returns l) as [s ->]; [done|by eexists].
Qed.

End sortedness.

(** *** parse_orderby *)

Lemma split_ws_nonempty s field rest :
  Str.split_ws s = field :: rest → truthy (Some s) = true.
Proof. by destruct s. Qed.

(** With a first word in the text, parse_orderby gives the sorted list, or
    the list it was given when the sort raises; the order is descending
    when the second word is [desc] in any case of letters. *)
Lemma parse_orderby_unfold `{Model A} s field rest (data : list A) :
  Str.split_ws s = field :: rest →
  parse_orderby (Some s) data =
    try_except
      (Py.sorted data (orderby_key field)
         (bool_decide (Str.lower <$> rest !! 0%nat = Some "desc")))
      (Return data).
Proof.
  intros Hs. unfold parse_orderby.
  rewrite (split_ws_nonempty s field rest) by done.
  cbn [negb from_option id]. rewrite Hs. cbn [index lookup list_lookup].
  bind_simpl. by destruct rest.
Qed.


(** With a first word that every record has as a field, and field values
    that [<] can order, parse_orderby sorts: its output is a rearrangement
    of the input, in the order asked for. *)
Lemma parse_orderby_sorts `{Model A} s field rest (data : list A) :
  Str.split_ws s = field :: rest →
  (∀ x, x ∈ data → is_Some (dict x !! field)) →
  (∀ x y vx vy, x ∈ data → y ∈ data →
     dict x !! field = Some vx → dict y !! field = Some vy →
     Py.compare vx vy ≠ None) →
  ∃ out, parse_orderby (Some s) data = Return out
       ∧ out ≡ₚ data
       ∧ StronglySorted
           (in_order (orderby_key field)
              (bool_decide (Str.lower <$> rest !! 0%nat = Some "desc")))
           out.
Proof.
  intros Hs Hf Hc. rewrite (parse_orderby_unfold _ _ _ _ Hs).
  destruct (sorted_returns (orderby_key field) data
              (bool_decide (Str.lower <$> rest !! 0%nat = Some "desc")))
    as [out Hout].
  - intros x [v Hv]%Hf. exists v. unfold orderby_key. by rewrite Hv.
  - intros x y kx ky Hx Hy. unfold orderby_key.
    destruct (dict x !! field) as [vx|] eqn:Hvx; [|done].
    destruct (dict y !! field) as [vy|] eqn:Hvy; [|done].
    intros [= <-] [= <-]. by apply (Hc x y).
  - rewrite Hout. cbn [try_except]. exists out. split; [done|]. split.
    + eapply (sorted_stable (λ _, false)); [done|exact Hout].
    + by eapply sorted_ordered.
Qed.



(** The sample customers by descending credit limit, and by country with
    the two customers of one country kept in their order. *)
Example orderby_sample :
  map CustomerID <$> parse_orderby (Some "CreditLimit desc") customers_data
  = Return [2; 4; 1; 3]
  ∧ map CustomerID <$> parse_orderby (Some "Country desc") customers_data
    = Return [1; 2; 4; 3]
  ∧ parse_orderby (Some " ") customers_data = Raise IndexError.
Proof. done. Qed.

(** * Further properties *)

(** ** parse_filter: errors, and what a filter keeps *)

(** Whatever the text, parse_filter either keeps the records that satisfy
    a test of the single record, or has a text with more than two parts
    around the token [eq], for which it returns on the empty list only. *)
Lemma parse_filter_normal_form `{Model A} (filter_str : option string) :
  (∃ p : A → bool, ∀ data,
     parse_filter filter_str data = Return (filter (λ r, p r) data))
  ∨ (2 < length (Str.split " eq " (default "" filter_str)))%nat
    ∧ ∀ data, parse_filter filter_str data
              = match data with
                | [] => Return []
                | _ :: _ => Raise ValueError
                end.
Proof.
  destruct (decide (truthy filter_str = true)) as [Ht|Ht].
  2:{ left. exists (λ _, true). intros data. rewrite filter_true.
      unfold parse_filter. by destruct (truthy filter_str). }
  destruct filter_str as [s|]; [|done]. cbn [from_option id].
  destruct (Str.contains " eq " s) eqn:Hc.
  - pose proof (split_go_two " eq " "" s ltac:(done) Hc) as Hlen.
    fold (Str.split " eq " s) in Hlen.
    destruct (Str.split " eq " s) as [|a [|b [|c l]]] eqn:Hs;
      cbn in Hlen; try lia.
    + left. eexists. intros data. by apply parse_filter_eq_form.
    + right. split; [cbn; lia|]. intros [|x data].
      * unfold parse_filter. by rewrite Ht.
      * unfold parse_filter. rewrite Ht. cbn [negb from_option id for_each].
        by rewrite Hc, Hs.
  - left. destruct (Str.contains "contains(" s) eqn:Hc'.
    + destruct (search_contains s) as [[F V]|] eqn:Hm.
      * eexists. intros data. by apply parse_filter_contains_form.
      * exists (λ _, false). intros data.
        rewrite parse_filter_contains_unmatched by done.
        f_equal. induction data as [|x data IH]; [done|].
        by rewrite filter_cons_False by (intros []).
    + exists (λ _, true). intros data. rewrite filter_true.
      by apply parse_filter_fallback.
Qed.

Lemma parse_filter_raises `{Model A} (filter_str : option string)
    (data : list A) (e : exn) :
  parse_filter filter_str data = Raise e
  ↔ e = ValueError ∧ data ≠ []
    ∧ (2 < length (Str.split " eq " (default "" filter_str)))%nat.
Proof.
  destruct (parse_filter_normal_form (A:=A) filter_str) as [[p Hp]|[Hlen Hr]].
  - rewrite Hp. split; [done|]. intros (_ & Hd & Hlen).
    exfalso. destruct data as [|x data]; [done|].
    destruct filter_str as [s|]; [|cbn in Hlen; lia].
    destruct (proj2 (parse_filter_raises_iff s (x :: data))) as [e' He'];
      [done|]. by rewrite Hp in He'.
  - rewrite Hr. destruct data; [by split; [|intros (_ & ? & _)]|].
    split; [by intros [= <-]|by intros (-> & _)].
Qed.

Lemma parse_filter_sublist `{Model A} (filter_str : option string)
    (data out : list A) :
  parse_filter filter_str data = Return out → out `sublist_of` data.
Proof.
  destruct (parse_filter_normal_form (A:=A) filter_str) as [[p Hp]|[_ Hr]].
  - rewrite Hp. intros [= <-]. apply sublist_filter.
  - rewrite Hr. destruct data; [|done]. by intros [= <-].
Qed.

(** X1.  parse_filter raises nothing but ValueError, and it returns
    exactly when the record list is empty or the text, split at the token
    [eq] between blanks, has at most two parts: no other text, absent,
    empty or malformed, makes the stage fail. *)
Theorem parse_filter_fails_on_repeated_eq_only `{Model A}
    (filter_str : option string) (data : list A) :
  (∀ e, parse_filter filter_str data = Raise e → e = ValueError)
  ∧ ((∃ out, parse_filter filter_str data = Return out)
     ↔ data = []
       ∨ (length (Str.split " eq " (default "" filter_str)) ≤ 2)%nat).
Proof.
  split.
  - by intros e (-> & _)%parse_filter_raises.
  - destruct (parse_filter filter_str data) as [out|e] eqn:Hf.
    + split; [|by exists out]. intros _.
      destruct data as [|x data]; [by left|right].
      destruct (decide (length (Str.split " eq " (default "" filter_str))
                        ≤ 2)%nat) as [|Hn]; [done|].
      assert (parse_filter filter_str (x :: data) = Raise ValueError)
        as Hr by (apply parse_filter_raises; split_and!; [done..|lia]).
      congruence.
    + apply parse_filter_raises in Hf as (-> & Hd & Hlen).
      split; [by intros [out ?]|]. intros [->|Hle]; [done|lia].
Qed.

Lemma parse_filter_fails_on_repeated_eq_only_witness :
  ∃ out, parse_filter (Some "City eq 'Berlin'") customers_data = Return out.
Proof.
  apply (parse_filter_fails_on_repeated_eq_only (Some "City eq 'Berlin'")
           customers_data).
  right. vm_compute. lia.
Defined.

(** X2.  What parse_filter returns is a sublist of the records it was
    given: records of the input, in the order of the input, none of them
    twice as often as there. *)
Theorem parse_filter_keeps_a_sublist `{Model A} (filter_str : option string)
    (data out : list A) :
  parse_filter filter_str data = Return out → out `sublist_of` data.
Proof. apply parse_filter_sublist. Qed.

Lemma parse_filter_keeps_a_sublist_witness :
  drop 2 (take 3 customers_data) `sublist_of` customers_data.
Proof.
  apply (parse_filter_keeps_a_sublist (Some "City eq 'Berlin'")
           customers_data).
  reflexivity.
Defined.

(** X3.  Filtering is idempotent: the records a filter text keeps are all
    kept when the same text filters them again. *)
Theorem parse_filter_idempotent `{Model A} (filter_str : option string)
    (data out : list A) :
  parse_filter filter_str data = Return out →
  parse_filter filter_str out = Return out.
Proof.
  destruct (parse_filter_normal_form (A:=A) filter_str) as [[p Hp]|[_ Hr]].
  - rewrite !Hp. intros [= <-]. f_equal.
    induction data as [|x data IH]; [done|].
    rewrite filter_cons. destruct (decide (p x)); [|done].
    by rewrite filter_cons_True, IH.
  - rewrite !Hr. destruct data; [|done]. by intros [= <-].
Qed.

Lemma parse_filter_idempotent_witness :
  parse_filter (Some "contains(Email, '.COM')")
    (take 2 customers_data ++ drop 3 customers_data)
  = Return (take 2 customers_data ++ drop 3 customers_data).
Proof.
  apply (parse_filter_idempotent (Some "contains(Email, '.COM')")
           customers_data).
  reflexivity.
Defined.

(** X4.  Each record is judged on its own: when a text filters two lists,
    it filters their concatenation to the concatenation of the two
    outcomes. *)
Theorem parse_filter_app `{Model A} (filter_str : option string)
    (data1 data2 out1 out2 : list A) :
  parse_filter filter_str data1 = Return out1 →
  parse_filter filter_str data2 = Return out2 →
  parse_filter filter_str (data1 ++ data2) = Return (out1 ++ out2).
Proof.
  destruct (parse_filter_normal_form (A:=A) filter_str) as [[p Hp]|[_ Hr]].
  - rewrite !Hp. intros [= <-] [= <-]. by rewrite filter_app.
  - rewrite !Hr. destruct data1, data2; try done. by intros [= <-] [= <-].
Qed.

Lemma parse_filter_app_witness :
  parse_filter (Some "Country eq usa")
    (take 3 customers_data ++ drop 3 customers_data)
  = Return (take 2 customers_data ++ []).
Proof.
  apply (parse_filter_app (Some "Country eq usa")); reflexivity.
Defined.

Lemma startswith_contains p s : Str.contains p (p +:+ s) = true.
Proof.
  destruct (p +:+ s) eqn:E; cbn [Str.contains];
    by rewrite <- E, startswith_append.
Qed.

(** X5.  A text that begins with a containment form, [contains(] a name
    of word characters, a comma, any blanks, a non-empty quoted value
    without a quote, and [)], and has no token [eq] between blanks, keeps
    the records that have the field and whose field contains the value,
    letter case apart; whatever follows the form is not read. *)
Theorem parse_filter_contains_keeps `{Model A} (f ws v rest : string)
    (data : list A) :
  f ≠ "" → Str.all Str.isword f = true →
  Str.all Str.isspace ws = true →
  v ≠ "" → Str.all (Str.isnt "'") v = true →
  Str.contains " eq "
    ("contains(" +:+ f +:+ "," +:+ ws +:+ "'" +:+ v +:+ "')" +:+ rest)
  = false →
  parse_filter
    (Some ("contains(" +:+ f +:+ "," +:+ ws +:+ "'" +:+ v +:+ "')" +:+ rest))
    data
  = Return (filter (λ r, field_icontains f v r) data).
Proof.
  intros Hf Hwf Hws Hv Hnq He.
  apply parse_filter_contains_form; [done|apply startswith_contains|].
  rewrite search_contains_unfold.
  replace (contains_at _) with (Some (f, v)); [done|].
  symmetry. apply contains_at_spec. by exists ws, rest.
Qed.

Lemma parse_filter_contains_keeps_witness :
  parse_filter (Some "contains(CustomerName, 'tech') and more")
    customers_data
  = Return (filter (λ r, field_icontains "CustomerName" "tech" r)
              customers_data).
Proof.
  by apply (parse_filter_contains_keeps "CustomerName" " " "tech"
              " and more" customers_data).
Defined.

(** ** Equality filters on fields that are not texts *)

Lemma split_go_whole sep cur s :
  Str.contains sep s = false →
  Str.split_go sep 0 cur s = [String.rev cur +:+ s].
Proof.
  revert cur. induction s as [|c s IH]; intros cur Hc.
  - cbn [Str.split_go]. f_equal.
    induction (String.rev cur) as [|a r IHr]; [done|].
    by rewrite append_cons, <- IHr.
  - cbn [Str.contains] in Hc. apply orb_false_iff in Hc as [Hp Hc].
    cbn [Str.split_go]. rewrite Hp, (IH _ Hc). by rewrite rev_cons_app.
Qed.

(** A field name without blanks, the token [eq] between blanks and a value
    without the token split into the name and the value. *)
Lemma split_eq_two F V :
  Str.all (Str.isnt " ") F = true →
  Str.contains " eq " V = false →
  Str.split " eq " (F +:+ " eq " +:+ V) = [F; V].
Proof.
  intros HF HV. unfold Str.split.
  assert (∀ cur, Str.split_go " eq " 0 cur (F +:+ " eq " +:+ V)
                 = [String.rev cur +:+ F; V]) as Hgo; [|apply (Hgo "")].
  induction F as [|c F IH]; intros cur.
  - rewrite append_nil. cbn [Str.split_go].
    change (" eq " +:+ V)
      with (String " " (String "e" (String "q" (String " " V)))).
    cbn -[String.rev]. rewrite (split_go_whole _ _ _ HV).
    f_equal. induction (String.rev cur) as [|a r IHr]; [done|].
    by rewrite append_cons, <- IHr.
  - cbn [Str.all] in HF. apply andb_true_iff in HF as [Hc HF].
    rewrite append_cons. cbn [Str.split_go Str.startswith].
    unfold Str.isnt in Hc. apply negb_true_iff, bool_decide_eq_false in Hc.
    rewrite (bool_decide_eq_false_2 (" "%char = c)) by congruence.
    cbn [andb]. rewrite (IH HF). by rewrite rev_cons_app.
Qed.

(** The text of an equality filter on Status is compared with the string
    form of the member, which is the class name, a dot and the name of
    the member. *)
Lemma parse_filter_status_form (V : string) (data : list Customer) :
  Str.contains " eq " V = false →
  parse_filter (Some ("Status eq " +:+ V)) data
  = Return (filter (λ c, Str.lower ("CustomerStatus."
                                    +:+ CustomerStatus_name (Status c))
                         = Str.lower (Str.strip_by Str.isquote (Str.strip V)))
              data).
Proof.
  intros HV.
  rewrite (parse_filter_eq_form ("Status eq " +:+ V) "Status" V)
    by (by apply (split_eq_two "Status" V)).
  f_equal. apply list_filter_iff. intros c.
  unfold field_iequals. change (Str.strip "Status") with "Status".
  change (dict c !! "Status") with (Some (VStatus (Status c))).
  cbn [Py.str]. by rewrite bool_decide_spec.
Qed.

(** X6.  An equality filter on the Status of customers does not compare
    with the value of the status: with a value of CustomerStatus as its
    text, bare or in single quotes, it keeps no customer at all; with the
    string form of the member, the class name, a dot and the name of the
    member, it keeps the customers of that status. *)
Theorem parse_filter_status (st : CustomerStatus) (data : list Customer) :
  parse_filter (Some ("Status eq " +:+ CustomerStatus_value st)) data
  = Return []
  ∧ parse_filter (Some ("Status eq '" +:+ CustomerStatus_value st +:+ "'"))
      data
    = Return []
  ∧ parse_filter
      (Some ("Status eq CustomerStatus." +:+ CustomerStatus_name st)) data
    = Return (filter (λ c, Status c = st) data).
Proof.
  split_and!.
  - change ("Status eq " +:+ CustomerStatus_value st)
      with ("Status eq " +:+ (CustomerStatus_value st)).
    rewrite parse_filter_status_form by (by destruct st). f_equal.
    induction data as [|c data IH]; [done|].
    rewrite filter_cons_False; [done|]. by destruct (Status c), st.
  - change ("Status eq '" +:+ CustomerStatus_value st +:+ "'")
      with ("Status eq " +:+ ("'" +:+ CustomerStatus_value st +:+ "'")).
    rewrite parse_filter_status_form by (by destruct st). f_equal.
    induction data as [|c data IH]; [done|].
    rewrite filter_cons_False; [done|]. by destruct (Status c), st.
  - change ("Status eq CustomerStatus." +:+ CustomerStatus_name st)
      with ("Status eq " +:+ ("CustomerStatus." +:+ CustomerStatus_name st)).
    rewrite parse_filter_status_form by (by destruct st). f_equal.
    apply list_filter_iff. intros c. by destruct (Status c), st.
Qed.

Section numerals.

Lemma pretty_N_go_numeral (x : N) (s : string) :
  Str.all numeral_char s = true →
  Str.all numeral_char (pretty_N_go x s) = true.
Proof.
  revert s. induction (N.lt_wf_0 x) as [x _ IH]; intros s Hs.
  assert (x = 0 ∨ 0 < x)%N as [->|Hx] by lia; [done|].
  rewrite pretty_N_go_step by done. apply IH; [by apply N.div_lt|].
  cbn [Str.all]. rewrite Hs, andb_true_r.
  unfold pretty_N_char. by repeat case_match.
Qed.

Lemma pretty_Z_numeral (z : Z) : Str.all numeral_char (pretty z) = true.
Proof.
  assert (∀ n : N, Str.all numeral_char (pretty n) = true) as HN.
  { intros n. unfold pretty, pretty_N. case_decide; [done|].
    by apply pretty_N_go_numeral. }
  destruct z as [|p|p]; [done|apply HN|].
  unfold pretty, pretty_Z. rewrite append_cons, append_nil.
  cbn [Str.all]. apply andb_true_iff. split; [done|apply HN].
Qed.

Context (s : string) (Hs : Str.all numeral_char s = true).

Lemma numeral_lower : Str.lower s = s.
Proof.
  induction s as [|c t IH]; [done|]. cbn [Str.all] in Hs.
  apply andb_true_iff in Hs as [Hc Ht]. cbn [Str.lower]. rewrite (IH Ht).
  f_equal. unfold Str.lower_char.
  destruct c as [[] [] [] [] [] [] [] []]; by vm_compute in Hc |- *.
Qed.

Lemma numeral_strip_by (p : ascii → bool) :
  (∀ c, numeral_char c = true → p c = false) → Str.strip_by p s = s.
Proof.
  intros Hp. unfold Str.strip_by.
  assert (Str.lstrip_by p s = s) as ->.
  { destruct s as [|c t]; [done|]. cbn [Str.all] in Hs.
    apply andb_true_iff in Hs as [Hc _]. cbn. by rewrite (Hp c Hc). }
  induction s as [|c t IH]; [done|]. cbn [Str.all] in Hs.
  apply andb_true_iff in Hs as [Hc Ht]. cbn [Str.rstrip_by].
  rewrite (IH Ht). destruct t; [|done]. by rewrite (Hp c Hc).
Qed.

Lemma numeral_no_eq : Str.contains " eq " s = false.
Proof.
  induction s as [|c t IH]; [done|]. cbn [Str.all] in Hs.
  apply andb_true_iff in Hs as [Hc Ht]. cbn [Str.contains Str.startswith].
  rewrite (IH Ht), orb_false_r.
  rewrite bool_decide_eq_false_2; [done|]. by intros <-.
Qed.

End numerals.

Lemma numeral_not_space c : numeral_char c = true → Str.isspace c = false.
Proof. destruct c as [[] [] [] [] [] [] [] []]; by vm_compute. Qed.

Lemma numeral_not_quote c : numeral_char c = true → Str.isquote c = false.
Proof. destruct c as [[] [] [] [] [] [] [] []]; by vm_compute. Qed.

(** The value of an equality filter that is the decimal form of an
    integer is compared as it stands. *)
Lemma parse_filter_integer_literal `{Model A} (F : string) (z : Z)
    (data : list A) :
  Str.all (Str.isnt " ") F = true →
  parse_filter (Some (F +:+ " eq " +:+ pretty z)) data
  = Return (filter (λ r, field_iequals (Str.strip F) (pretty z) r) data).
Proof.
  intros HF. pose proof (pretty_Z_numeral z) as Hz.
  rewrite (parse_filter_eq_form _ F (pretty z))
    by (apply split_eq_two; [done|by apply numeral_no_eq]).
  f_equal. apply list_filter_iff. intros r. unfold Str.strip at 2.
  by rewrite (numeral_strip_by _ Hz _ numeral_not_space),
    (numeral_strip_by _ Hz _ numeral_not_quote).
Qed.

Lemma field_iequals_int `{Model A} (F : string) (z z' : Z) (r : A) :
  dict r !! F = Some (VInt z') →
  field_iequals F (pretty z) r = bool_decide (z' = z).
Proof.
  intros Hr. unfold field_iequals. rewrite Hr. cbn [Py.str].
  rewrite !numeral_lower by apply pretty_Z_numeral.
  apply bool_decide_ext. split; [apply (inj pretty)|by intros ->].
Qed.

(** An equality filter on an integer field with the decimal form of [z]
    keeps the records whose field is [z]. *)
Lemma parse_filter_int_field `{Model A} (F : string) (get : A → Z)
    (z : Z) (data : list A) :
  (∀ r, dict r !! Str.strip F = Some (VInt (get r))) →
  Str.all (Str.isnt " ") F = true →
  parse_filter (Some (F +:+ " eq " +:+ pretty z)) data
  = Return (filter (λ r, get r = z) data).
Proof.
  intros Hget HF. rewrite parse_filter_integer_literal by done.
  f_equal. apply list_filter_iff. intros r.
  rewrite (field_iequals_int _ _ (get r)) by done.
  by rewrite bool_decide_spec.
Qed.

(** X7.  An equality filter on an integer field with the decimal form of
    an integer as its value keeps the records whose field is that
    integer: customers by CustomerID, orders by OrderID, and orders by the
    CustomerID they carry. *)
Theorem parse_filter_by_id (z : Z) (customers : list Customer)
    (orders : list Order) :
  parse_filter (Some ("CustomerID eq " +:+ pretty z)) customers
  = Return (filter (λ c, CustomerID c = z) customers)
  ∧ parse_filter (Some ("OrderID eq " +:+ pretty z)) orders
    = Return (filter (λ o, OrderID o = z) orders)
  ∧ parse_filter (Some ("CustomerID eq " +:+ pretty z)) orders
    = Return (filter (λ o, Order_CustomerID o = z) orders).
Proof.
  split_and!.
  - by apply (parse_filter_int_field "CustomerID" CustomerID).
  - by apply (parse_filter_int_field "OrderID" OrderID).
  - by apply (parse_filter_int_field "CustomerID" Order_CustomerID).
Qed.

Lemma all_append p s t :
  Str.all p (s +:+ t) = Str.all p s && Str.all p t.
Proof.
  induction s as [|c s IH]; [done|]. rewrite append_cons. cbn [Str.all].
  by rewrite IH, andb_assoc.
Qed.

Lemma lower_append s t : Str.lower (s +:+ t) = Str.lower s +:+ Str.lower t.
Proof.
  induction s as [|c s IH]; [done|]. rewrite !append_cons. cbn [Str.lower].
  by rewrite append_cons, IH.
Qed.

(** The string form of a float has a decimal point, an exponent or the
    letters of [inf]: it is not the decimal form of an integer. *)
Lemma float_repr_not_numeral (f : float) :
  Str.all numeral_char (Str.lower (FloatRepr.repr f)) = false.
Proof.
  assert (∀ ds point,
    Str.all numeral_char (Str.lower (FloatRepr.layout ds point)) = false)
    as Hlayout.
  { intros ds point. unfold FloatRepr.layout.
    repeat case_bool_decide;
      rewrite ?lower_append, ?all_append;
      repeat first [done | apply andb_false_intro2
                   | apply andb_false_intro1; done ]. }
  destruct f as [[]|[]|neg m e]; try done. unfold FloatRepr.repr.
  destruct (FloatRepr.shortest _ _ _ _ _ _) as [d k].
  rewrite lower_append, all_append, Hlayout. apply andb_false_r.
Qed.

(** X8.  An equality filter on a float field, CreditLimit of customers or
    TotalAmount of orders, whose value is the decimal form of an integer
    keeps no record: the string form of a float is never the decimal form
    of an integer. *)
Theorem parse_filter_float_field_integer_literal (z : Z)
    (customers : list Customer) (orders : list Order) :
  parse_filter (Some ("CreditLimit eq " +:+ pretty z)) customers = Return []
  ∧ parse_filter (Some ("TotalAmount eq " +:+ pretty z)) orders = Return [].
Proof.
  assert (∀ f, Str.lower (FloatRepr.repr f) ≠ Str.lower (pretty z)) as Hne.
  { intros f Heq. pose proof (float_repr_not_numeral f) as Hf.
    rewrite Heq, numeral_lower, pretty_Z_numeral in Hf
      by apply pretty_Z_numeral. done. }
  split.
  - change ("CreditLimit eq " +:+ pretty z) with ("CreditLimit" +:+ " eq " +:+ pretty z).
    rewrite (parse_filter_integer_literal "CreditLimit") by done. f_equal.
    induction customers as [|c l IH]; [done|].
    rewrite filter_cons_False; [done|]. unfold field_iequals.
    change (dict c !! Str.strip "CreditLimit")
      with (Some (VFloat (CreditLimit c))).
    cbn [Py.str]. rewrite bool_decide_eq_false_2; [by intros []|apply Hne].
  - change ("TotalAmount eq " +:+ pretty z) with ("TotalAmount" +:+ " eq " +:+ pretty z).
    rewrite (parse_filter_integer_literal "TotalAmount") by done. f_equal.
    induction orders as [|o l IH]; [done|].
    rewrite filter_cons_False; [done|]. unfold field_iequals.
    change (dict o !! Str.strip "TotalAmount")
      with (Some (VFloat (TotalAmount o))).
    cbn [Py.str]. rewrite bool_decide_eq_false_2; [by intros []|apply Hne].
Qed.

(** ** parse_select: the names that matter *)

(** Each mapping parse_select returns is the mapping of the record cut
    down to the names the select list keeps. *)
Lemma parse_select_lookup `{Model A} (select : option string)
    (data : list A) :
  parse_select select data
  = (λ item, filter (λ kv, selects select kv.1) (dict item)) <$> data.
Proof.
  unfold parse_select, selects. destruct (truthy select); cbn [negb orb].
  - apply list_fmap_ext. intros _ item _. apply map_eq. intros k.
    rewrite select_fields_lookup. fold (fields_of (default "" select)).
    destruct (dict item !! k) as [v|] eqn:Hk.
    + case_bool_decide as Hin.
      * symmetry. apply map_lookup_filter_Some. split; [done|].
        by apply Is_true_true, bool_decide_eq_true_2.
      * symmetry. apply map_lookup_filter_None. right. intros v' _.
        by apply Is_true_false, bool_decide_eq_false_2.
    + case_bool_decide; symmetry; apply map_lookup_filter_None; by left.
  - apply list_fmap_ext. intros _ item _. symmetry.
    by apply map_filter_id.
Qed.

Lemma parse_select_length `{Model A} (select : option string)
    (l : list A) :
  length (parse_select select l) = length l.
Proof.
  unfold parse_select. destruct (truthy select); cbn;
    by rewrite length_fmap.
Qed.

(** X9.  The outcome of parse_select depends on the select list only
    through which of the fields the records have it keeps: two lists that
    keep the same fields of every record give the same mappings, so the
    order of the names, a name given twice and names that are no field
    make no difference, and a list that keeps every field gives what an
    absent list gives. *)
Theorem parse_select_known_names `{Model A} (select1 select2 : option string)
    (data : list A) :
  (∀ item k, item ∈ data → is_Some (dict item !! k) →
     selects select1 k = selects select2 k) →
  parse_select select1 data = parse_select select2 data.
Proof.
  intros Hsame. rewrite !parse_select_lookup.
  apply list_fmap_ext. intros i item Hi. apply map_filter_ext.
  intros k v Hk. cbn. rewrite (Hsame item k); [done| |done].
  by eapply list_elem_of_lookup_2.
Qed.

Lemma parse_select_known_names_witness :
  parse_select (Some "Email, Bogus,CustomerName,Email") customers_data
  = parse_select (Some "CustomerName,Email") customers_data
  ∧ parse_select
      (Some ("CustomerID,CustomerName,Email,Phone,City,Country,Status,"
             +:+ "CreatedDate,CreditLimit")) customers_data
    = parse_select None customers_data.
Proof.
  split; apply (parse_select_known_names (A:=Customer));
    intros item k _ [v Hv]; apply elem_of_map_to_list in Hv;
    apply (list_elem_of_fmap_2 fst) in Hv; cbn [fst] in Hv;
    destruct item; vm_compute in Hv;
    repeat (apply elem_of_cons in Hv as [->|Hv]; [by vm_compute|]);
    by apply elem_of_nil in Hv.
Defined.

(** ** parse_orderby: errors, sorting twice, and the declared fields *)

Lemma split_ws_go_nil cur s :
  Str.split_ws_go cur s = [] ↔ cur = "" ∧ Str.all Str.isspace s = true.
Proof.
  revert cur.
  induction s as [|c s IH]; intros cur; cbn [Str.split_ws_go Str.all].
  - destruct cur; [done|]. by split; [|intros []].
  - destruct (Str.isspace c); cbn [andb].
    + destruct cur; [apply IH|]. by split; [|intros []].
    + rewrite IH. split; [by intros []|by intros []].
Qed.

Lemma split_ws_nil s : Str.split_ws s = [] ↔ Str.all Str.isspace s = true.
Proof. unfold Str.split_ws. rewrite split_ws_go_nil. tauto. Qed.

Lemma parse_orderby_raises `{Model A} (orderby_str : option string)
    (data : list A) (e : exn) :
  parse_orderby orderby_str data = Raise e
  ↔ e = IndexError ∧ truthy orderby_str = true
    ∧ Str.all Str.isspace (default "" orderby_str) = true.
Proof.
  unfold parse_orderby. destruct (truthy orderby_str) eqn:Ht; cbn [negb].
  2:{ split; [done|]. by intros (_ & ? & _). }
  rewrite <- split_ws_nil.
  destruct (Str.split_ws (default "" orderby_str)) as [|field rest];
    cbn [index lookup list_lookup]; bind_simpl.
  - split; [by intros [= <-]|by intros (-> & _)].
  - split; [|by intros (_ & _ & ?)].
    by destruct (Py.sorted _ _ _).
Qed.

Lemma parse_orderby_perm `{Model A} (orderby_str : option string)
    (data out : list A) :
  parse_orderby orderby_str data = Return out → out ≡ₚ data.
Proof.
  unfold parse_orderby. destruct (truthy orderby_str); cbn [negb];
    [|by intros [= <-]].
  destruct (index _ _) as [field|]; bind_simpl; [|done].
  destruct (Py.sorted _ _ _) as [out'|] eqn:Hs; cbn [try_except];
    intros [= <-]; [|done].
  eapply (sorted_stable (λ _, false)); [done|exact Hs].
Qed.

(** X10.  parse_orderby raises nothing but IndexError, and it raises
    exactly when the text is present, not empty and made of whitespace
    only, whatever the records, the empty list included: a field that
    does not exist or values that cannot be ordered never make it fail. *)
Theorem parse_orderby_fails_on_blank_text_only `{Model A}
    (orderby_str : option string) (data : list A) :
  (∀ e, parse_orderby orderby_str data = Raise e → e = IndexError)
  ∧ ((∃ e, parse_orderby orderby_str data = Raise e)
     ↔ orderby_str ≠ None ∧ orderby_str ≠ Some ""
       ∧ Str.all Str.isspace (default "" orderby_str) = true).
Proof.
  split.
  - by intros e (-> & _)%parse_orderby_raises.
  - split.
    + intros [e (_ & Ht & Hs)%parse_orderby_raises].
      by destruct orderby_str as [[|a s]|].
    + intros (Hn & He & Hs). exists IndexError.
      apply parse_orderby_raises. by destruct orderby_str as [[|a s]|].
Qed.

Lemma parse_orderby_fails_on_blank_text_only_witness :
  ∃ e, parse_orderby (Some "  ") customers_data = Raise e.
Proof.
  by apply (parse_orderby_fails_on_blank_text_only (Some "  ")
              customers_data).
Defined.

Section resort.
Context {A : Type} (key : A → result Any).

Lemma sort_of_sorted (s : list (Any * A)) :
  StronglySorted not_after s → Py.sort s = Return s.
Proof.
  induction 1 as [|x l Hl IH Hx]; [done|].
  cbn [Py.sort]. rewrite IH. bind_simpl.
  destruct l as [|y l]; [done|]. cbn [Py.insert].
  apply Forall_cons in Hx as [Hxy _]. unfold not_after in Hxy.
  by rewrite Hxy.
Qed.

Lemma map_result_of_keyed (s : list (Any * A)) :
  Forall (keyed key) s →
  map_result (λ x, k ← key x; Return (k, x)) s.*2 = Return s.
Proof.
  induction 1 as [|[k x] s Hx _ IH]; [done|].
  cbn [fmap list_fmap snd map_result]. unfold keyed in Hx. cbn in Hx.
  rewrite Hx. bind_simpl. fold (snd <$> s). by rewrite IH.
Qed.

(** Sorting what a sort returned changes nothing. *)
Lemma sorted_of_sorted data reverse out :
  Py.sorted data key reverse = Return out →
  Py.sorted out key reverse = Return out.
Proof.
  unfold Py.sorted.
  destruct (map_result _ data) as [l|] eqn:Hl; bind_simpl; [|done].
  apply (map_result_keyed key) in Hl as [_ Hall]. destruct reverse.
  - destruct (Py.sort (list.reverse l)) as [s|] eqn:Hs; bind_simpl; [|done].
    intros [= <-]. pose proof (sort_perm _ _ Hs) as Hp.
    rewrite map_result_of_keyed
      by (by rewrite reverse_Permutation, Hp, reverse_Permutation).
    bind_simpl. rewrite reverse_involutive.
    by rewrite (sort_of_sorted s) by (by eapply sort_sorted).
  - destruct (Py.sort l) as [s|] eqn:Hs; bind_simpl; [|done].
    intros [= <-]. pose proof (sort_perm _ _ Hs) as Hp.
    rewrite map_result_of_keyed by (by rewrite Hp).
    bind_simpl.
    by rewrite (sort_of_sorted s) by (by eapply sort_sorted).
Qed.

End resort.

(** X11.  Ordering is idempotent: what parse_orderby returns for a text
    is left as it is when the same text orders it again, in both
    directions, also when the order failed soft. *)
Theorem parse_orderby_idempotent `{Model A} (orderby_str : option string)
    (data out : list A) :
  parse_orderby orderby_str data = Return out →
  parse_orderby orderby_str out = Return out.
Proof.
  unfold parse_orderby. destruct (truthy orderby_str); cbn [negb];
    [|by intros [= <-]].
  destruct (index _ _) as [field|]; bind_simpl; [|done].
  destruct (Py.sorted data _ _) as [out'|] eqn:Hs; cbn [try_except];
    intros [= <-].
  - by rewrite (sorted_of_sorted _ _ _ _ Hs).
  - by rewrite Hs.
Qed.

Lemma parse_orderby_idempotent_witness :
  parse_orderby (Some "Country DESC")
    (take 2 customers_data ++ list.reverse (drop 2 customers_data))
  = Return (take 2 customers_data ++ list.reverse (drop 2 customers_data)).
Proof.
  apply (parse_orderby_idempotent (Some "Country DESC") customers_data).
  reflexivity.
Defined.

(** The properties an entity set declares with one of the types whose
    values are always ordered: integers, texts and lists of texts. *)
Lemma declared_ordered_names (entity field t : string) :
  declared entity !! field = Some t →
  t ∈ ["int"; "string"; "array"] →
  (field, t) ∈ filter (λ p, p.2 ∈ ["int"; "string"; "array"])
                 (map_to_list (declared entity)).
Proof.
  intros Ht Hin. apply list_elem_of_filter. split; [done|].
  by apply elem_of_map_to_list.
Qed.

Lemma declared_Customers_comparable field t (x y : Customer) :
  declared "Customers" !! field = Some t →
  t ∈ ["int"; "string"; "array"] →
  ∃ vx vy, dict x !! field = Some vx ∧ dict y !! field = Some vy
           ∧ Py.compare vx vy ≠ None.
Proof.
  intros Ht Hin. pose proof (declared_ordered_names _ _ _ Ht Hin) as Hf.
  vm_compute in Hf.
  repeat (apply elem_of_cons in Hf as [[= -> ->]|Hf];
          [by eexists _, _; split_and!; [reflexivity..|]|]).
  by apply elem_of_nil in Hf.
Qed.

Lemma declared_Orders_comparable field t (x y : Order) :
  declared "Orders" !! field = Some t →
  t ∈ ["int"; "string"; "array"] →
  ∃ vx vy, dict x !! field = Some vx ∧ dict y !! field = Some vy
           ∧ Py.compare vx vy ≠ None.
Proof.
  intros Ht Hin. pose proof (declared_ordered_names _ _ _ Ht Hin) as Hf.
  vm_compute in Hf.
  repeat (apply elem_of_cons in Hf as [[= -> ->]|Hf];
          [by eexists _, _; split_and!; [reflexivity..|]|]).
  by apply elem_of_nil in Hf.
Qed.

(** X12.  An orderby text whose first word is a property that the
    metadata document declares for the entity set with the type int,
    string or array never fails soft: for every list of customers, and of
    orders, parse_orderby returns a rearrangement of the list in the order
    asked for, descending when the second word is [desc] in any case of
    letters and ascending otherwise.  (The properties declared decimal or
    datetime are left out: a float can be a NaN, and a datetime with a
    time zone is not ordered against one without.) *)
Theorem parse_orderby_sorts_declared_fields (orderby_str field t : string)
    (rest : list string) :
  Str.split_ws orderby_str = field :: rest →
  t ∈ ["int"; "string"; "array"] →
  (declared "Customers" !! field = Some t →
   ∀ data : list Customer,
     ∃ out, parse_orderby (Some orderby_str) data = Return out
          ∧ out ≡ₚ data
          ∧ StronglySorted
              (in_order (orderby_key field)
                 (bool_decide (Str.lower <$> rest !! 0%nat = Some "desc")))
              out)
  ∧ (declared "Orders" !! field = Some t →
     ∀ data : list Order,
       ∃ out, parse_orderby (Some orderby_str) data = Return out
            ∧ out ≡ₚ data
            ∧ StronglySorted
                (in_order (orderby_key field)
                   (bool_decide (Str.lower <$> rest !! 0%nat = Some "desc")))
                out).
Proof.
  intros Hs Ht. split; intros Hf data.
  - apply (parse_orderby_sorts orderby_str field rest data Hs).
    + intros x _. by destruct (declared_Customers_comparable field t x x Hf Ht)
        as (vx & _ & -> & _).
    + intros x y vx vy _ _ Hx Hy.
      destruct (declared_Customers_comparable field t x y Hf Ht)
        as (vx' & vy' & Hx' & Hy' & Hc). congruence.
  - apply (parse_orderby_sorts orderby_str field rest data Hs).
    + intros x _. by destruct (declared_Orders_comparable field t x x Hf Ht)
        as (vx & _ & -> & _).
    + intros x y vx vy _ _ Hx Hy.
      destruct (declared_Orders_comparable field t x y Hf Ht)
        as (vx' & vy' & Hx' & Hy' & Hc). congruence.
Qed.

Lemma parse_orderby_sorts_declared_fields_witness :
  (∃ out, parse_orderby (Some "Status desc") customers_data = Return out
        ∧ out ≡ₚ customers_data
        ∧ StronglySorted (in_order (orderby_key "Status") true) out)
  ∧ (∃ out, parse_orderby (Some "Items") orders_data = Return out
          ∧ out ≡ₚ orders_data
          ∧ StronglySorted (in_order (orderby_key "Items") false) out).
Proof.
  split.
  - apply (parse_orderby_sorts_declared_fields "Status desc" "Status"
             "string" ["desc"] eq_refl); [|reflexivity].
    apply (bool_decide_unpack _). vm_compute. exact I.
  - apply (parse_orderby_sorts_declared_fields "Items" "Items" "array" []
             eq_refl); [|reflexivity].
    apply (bool_decide_unpack _). vm_compute. exact I.
Defined.

(** *** Descending and ascending order *)

Section reversal.
Context {A : Type} (key : A → result Any).

Lemma py_lt_irrefl k : Py.lt k k ≠ Return true.
Proof.
  intros Hk. pose proof (lt_true_asym _ _ Hk). congruence.
Qed.

Lemma strict_perm (l l' : list (Any * A)) :
  l ≡ₚ l' → strict_keys l → strict_keys l'.
Proof.
  intros Hp [Hnd Hs]. split; [by rewrite <- Hp|].
  intros a b. rewrite <- !Hp. apply Hs.
Qed.

Lemma strict_tail (p : Any * A) l : strict_keys (p :: l) → strict_keys l.
Proof.
  intros [Hnd Hs]. rewrite fmap_cons in Hnd. apply NoDup_cons in Hnd as [_ Hnd].
  split; [done|]. intros a b Ha Hb. apply Hs; rewrite fmap_cons; by right.
Qed.

(** A list of pairs with strictly ordered keys has one sorted
    arrangement. *)
Lemma sorted_unique (s1 s2 : list (Any * A)) :
  strict_keys s1 →
  StronglySorted not_after s1 → StronglySorted not_after s2 →
  s1 ≡ₚ s2 → s1 = s2.
Proof.
  revert s2. induction s1 as [|p t1 IH]; intros s2 Hstrict H1 H2 Hp.
  - by apply Permutation_nil_l in Hp.
  - destruct s2 as [|q t2]; [by apply Permutation_nil_r in Hp|].
    apply StronglySorted_inv in H1 as [H1 Hp1].
    apply StronglySorted_inv in H2 as [H2 Hq2].
    assert (p = q) as <-.
    { assert (p ∈ q :: t2) as [->|Hpt]%elem_of_cons
        by (rewrite <- Hp; left); [done|].
      assert (q ∈ p :: t1) as [->|Hqt]%elem_of_cons
        by (rewrite Hp; left); [done|].
      exfalso. rewrite Forall_forall in Hp1, Hq2.
      pose proof (Hp1 q Hqt) as Hqp. pose proof (Hq2 p Hpt) as Hpq.
      unfold not_after in Hqp, Hpq.
      destruct Hstrict as [Hnd Hs]. rewrite fmap_cons in Hnd, Hs.
      apply NoDup_cons in Hnd as [Hnp _].
      destruct (Hs p.1 q.1) as [Hlt|Hlt]; [left|right|..|congruence|congruence].
      - by apply list_elem_of_fmap_2.
      - intros Heq. apply Hnp. rewrite Heq. by apply list_elem_of_fmap_2. }
    f_equal. apply IH; [by eapply strict_tail|done..|].
    by apply Permutation_cons_inv in Hp.
Qed.

Lemma map_result_keys data l :
  map_result (λ x, k ← key x; Return (k, x)) data = Return l →
  map_result key data = Return l.*1.
Proof.
  revert l. induction data as [|x data IH]; intros l; cbn [map_result].
  - by intros [= <-].
  - destruct (key x) as [k|]; bind_simpl; [|done].
    destruct (map_result _ data) as [l'|]; bind_simpl; [|done].
    intros [= <-]. by rewrite (IH l').
Qed.

Lemma map_result_pairs data keys :
  map_result key data = Return keys →
  ∃ l, map_result (λ x, k ← key x; Return (k, x)) data = Return l
       ∧ l.*1 = keys.
Proof.
  revert keys. induction data as [|x data IH]; intros keys; cbn [map_result].
  - intros [= <-]. by exists [].
  - destruct (key x) as [k|]; bind_simpl; [|done].
    destruct (map_result key data) as [ks|]; bind_simpl; [|done].
    intros [= <-]. destruct (IH ks) as (l & -> & <-); [done|].
    bind_simpl. by eexists.
Qed.

Lemma distinct_keys_strict data l :
  distinct_keys key data →
  map_result (λ x, k ← key x; Return (k, x)) data = Return l →
  strict_keys l.
Proof.
  intros (keys & Hk & Hd) Hl. apply map_result_keys in Hl.
  assert (keys = l.*1) as -> by congruence. clear Hk Hl.
  assert (∀ i j a b, l.*1 !! i = Some a → l.*1 !! j = Some b → i ≠ j →
            Py.lt a b = Return true ∨ Py.lt b a = Return true) as Hd'.
  { intros i j a b Hi Hj Hne. destruct (decide (i < j)%nat).
    - by eapply Hd.
    - apply or_comm. eapply (Hd j i); [done..|lia]. }
  split.
  - apply NoDup_alt. intros i j a Hi Hj.
    destruct (decide (i = j)) as [|Hne]; [done|].
    destruct (Hd' i j a a Hi Hj Hne) as [Hlt|Hlt]; by apply py_lt_irrefl in Hlt.
  - intros a b [i Hi]%list_elem_of_lookup_1 [j Hj]%list_elem_of_lookup_1 Hne.
    apply (Hd' i j); [done..|]. intros ->. congruence.
Qed.

Lemma compare_refl_Some k : Py.compare k k ≠ None.
Proof. unfold Py.compare. by destruct (Py.operand_of k). Qed.

Lemma strict_sort_returns (l : list (Any * A)) :
  strict_keys l → ∃ s, Py.sort l = Return s.
Proof.
  intros [_ Hs]. apply sort_returns. intros p q Hp Hq Hc.
  destruct (Hs p.1 q.1) as [Hlt|Hlt]; [by apply list_elem_of_fmap_2..| | |].
  - intros Heq. rewrite Heq in Hc. by apply compare_refl_Some in Hc.
  - unfold Py.lt in Hlt. by rewrite Hc in Hlt.
  - pose proof (lt_true_asym _ _ Hlt) as Hlt'. unfold Py.lt in Hlt'.
    by rewrite Hc in Hlt'.
Qed.

(** With distinct keys, sorting in descending order gives the reverse of
    sorting in ascending order. *)
Lemma sorted_reverse data :
  distinct_keys key data →
  ∃ out, Py.sorted data key false = Return out
       ∧ Py.sorted data key true = Return (list.reverse out).
Proof.
  intros Hd. pose proof Hd as (keys & Hk & _).
  destruct (map_result_pairs data keys Hk) as (l & Hl & _).
  pose proof (distinct_keys_strict data l Hd Hl) as Hstrict.
  unfold Py.sorted. rewrite Hl. bind_simpl.
  destruct (strict_sort_returns l Hstrict) as [sa Hsa].
  destruct (strict_sort_returns (list.reverse l)) as [sd Hsd].
  { eapply strict_perm; [|done]. by rewrite reverse_Permutation. }
  rewrite Hsa, Hsd. bind_simpl. eexists. split; [done|].
  assert (sa = sd) as ->; [|by rewrite fmap_reverse].
  apply sorted_unique.
  - eapply strict_perm; [|done]. symmetry. by apply sort_perm.
  - by eapply sort_sorted.
  - by eapply sort_sorted.
  - rewrite (sort_perm _ _ Hsa), (sort_perm _ _ Hsd).
    by rewrite reverse_Permutation.
Qed.

End reversal.

(** X30.  When the sort keys of the records exist and are pairwise
    strictly ordered, with no two equal, ordering by a field in
    descending order gives the reverse of what ordering by the field in
    ascending order gives.  (With equal keys it does not: the sort is
    stable in both directions, see [orderby_sample].) *)
Theorem descending_reverses_ascending `{Model A} (asc desc field word : string)
    (data : list A) :
  Str.split_ws asc = [field] →
  Str.split_ws desc = [field; word] →
  Str.lower word = "desc" →
  distinct_keys (orderby_key field) data →
  ∃ out, parse_orderby (Some asc) data = Return out
       ∧ parse_orderby (Some desc) data = Return (list.reverse out).
Proof.
  intros Ha Hd Hw Hk.
  rewrite (parse_orderby_unfold asc field [] data Ha),
    (parse_orderby_unfold desc field [word] data Hd).
  rewrite bool_decide_eq_false_2 by done.
  rewrite bool_decide_eq_true_2 by (cbn; by rewrite Hw).
  destruct (sorted_reverse (orderby_key field) data Hk) as (out & -> & ->).
  by exists out.
Qed.

Lemma descending_reverses_ascending_witness :
  ∃ out, parse_orderby (Some "CreditLimit") customers_data = Return out
       ∧ parse_orderby (Some "CreditLimit  DESC") customers_data
         = Return (list.reverse out).
Proof.
  apply (descending_reverses_ascending "CreditLimit" "CreditLimit  DESC"
           "CreditLimit" "DESC" customers_data); [reflexivity..|].
  eexists. split; [reflexivity|].
  intros i j a b Hi Hj Hlt.
  destruct i as [|[|[|[|i]]]], j as [|[|[|[|j]]]];
    cbn in Hi, Hj; try lia; try done;
    injection Hi as <-; injection Hj as <-; vm_compute; auto.
Defined.

(** ** The list handlers: errors, and what a page holds *)

(** Filtering and then ordering raises the ValueError of the filter, or
    else the IndexError of the order. *)
Lemma filter_orderby_raises `{Model A} (filter_ orderby : option string)
    (data : list A) (e : exn) :
  parse_filter filter_ data ≫= parse_orderby orderby = Raise e
  ↔ e = ValueError
    ∧ (data ≠ []
       ∧ (2 < length (Str.split " eq " (default "" filter_)))%nat)
    ∨ e = IndexError
      ∧ ¬ (data ≠ []
           ∧ (2 < length (Str.split " eq " (default "" filter_)))%nat)
      ∧ truthy orderby = true
      ∧ Str.all Str.isspace (default "" orderby) = true.
Proof.
  pose proof (parse_filter_raises filter_ data ValueError) as HF.
  destruct (parse_filter filter_ data) as [fd|e'] eqn:Hf; bind_simpl.
  - rewrite parse_orderby_raises. split.
    + intros (-> & Ht & Hs). right. split; [done|]. split; [|done].
      intros Hfail. by apply (λ p, proj2 HF (conj eq_refl p)) in Hfail.
    + intros [(-> & Hfail)|(-> & _ & Ht)]; [|done].
      by apply (λ p, proj2 HF (conj eq_refl p)) in Hfail.
  - apply parse_filter_raises in Hf as (-> & Hfail). split.
    + intros [= <-]. by left.
    + by intros [(-> & _)|(_ & Hn & _)].
Qed.

(** X13.  GET /odata/Customers and GET /odata/Orders fail in two ways
    only, whatever select, top, skip and count are: with the ValueError
    of a filter text that has more than two parts around the token [eq],
    when the store is not empty; and otherwise with the IndexError of an
    orderby text that is not empty and is made of whitespace only. *)
Theorem list_handlers_raise_iff (customers_data : list Customer)
    (orders_data : list Order) (filter_ select orderby : option string)
    (top skip : option Z) (with_count : option bool) (e : exn) :
  (get_customers customers_data filter_ select orderby top skip with_count
   = Raise e
   ↔ e = ValueError
     ∧ (customers_data ≠ []
        ∧ (2 < length (Str.split " eq " (default "" filter_)))%nat)
     ∨ e = IndexError
       ∧ ¬ (customers_data ≠ []
            ∧ (2 < length (Str.split " eq " (default "" filter_)))%nat)
       ∧ truthy orderby = true
       ∧ Str.all Str.isspace (default "" orderby) = true)
  ∧ (get_orders orders_data filter_ select orderby top skip with_count
     = Raise e
     ↔ e = ValueError
       ∧ (orders_data ≠ []
          ∧ (2 < length (Str.split " eq " (default "" filter_)))%nat)
       ∨ e = IndexError
         ∧ ¬ (orders_data ≠ []
              ∧ (2 < length (Str.split " eq " (default "" filter_)))%nat)
         ∧ truthy orderby = true
         ∧ Str.all Str.isspace (default "" orderby) = true).
Proof.
  split.
  - rewrite <- filter_orderby_raises. unfold get_customers.
    destruct (parse_filter filter_ customers_data) as [fd|]; bind_simpl;
      [|by split; intros [= <-]].
    by destruct (parse_orderby orderby fd); [|split; intros [= <-]].
  - rewrite <- filter_orderby_raises. unfold get_orders.
    destruct (parse_filter filter_ orders_data) as [fd|]; bind_simpl;
      [|by split; intros [= <-]].
    by destruct (parse_orderby orderby fd); [|split; intros [= <-]].
Qed.

Lemma list_handlers_raise_iff_witness :
  get_orders orders_data (Some "Status eq a eq b") None (Some " ") None None
    None
  = Raise ValueError.
Proof.
  apply (list_handlers_raise_iff customers_data orders_data
           (Some "Status eq a eq b") None (Some " ") None None None
           ValueError).
  left. split; [done|]. split; [done|]. vm_compute. lia.
Defined.

Lemma paginate_sublist {A} (skip top : option Z) (l : list A) :
  (let l1 := if truthy_int skip then slice_from l (default 0 skip) else l in
   if truthy_int top then slice_to l1 (default 0 top) else l1)
  `sublist_of` l.
Proof.
  cbv zeta. unfold slice_from, slice_to.
  destruct (truthy_int skip), (truthy_int top);
    repeat first [done | apply sublist_drop
                 | etrans; [apply sublist_take|]].
Qed.

(** X14.  Whatever the query options, and for negative top and skip too,
    a list handler that returns gives the projections of records of the
    store, none more often than the store has it: the value is
    parse_select of a list that is contained in the store as a multiset,
    and a reported count lies between the length of the value and the
    length of the store. *)
Theorem list_handlers_page_within_store (customers_data : list Customer)
    (orders_data : list Order) (filter_ select orderby : option string)
    (top skip : option Z) (with_count : option bool) (r : ODataResponse) :
  (get_customers customers_data filter_ select orderby top skip with_count
   = Return r →
   ∃ l, l ⊆+ customers_data
      ∧ value r = parse_select select l
      ∧ ∀ n, count r = Some n →
          Z.of_nat (length (value r)) ≤ n ≤ Z.of_nat (length customers_data))
  ∧ (get_orders orders_data filter_ select orderby top skip with_count
     = Return r →
     ∃ l, l ⊆+ orders_data
        ∧ value r = parse_select select l
        ∧ ∀ n, count r = Some n →
            Z.of_nat (length (value r)) ≤ n ≤ Z.of_nat (length orders_data)).
Proof.
  split.
  - unfold get_customers.
    destruct (parse_filter _ _) as [fd|] eqn:Hf; bind_simpl; [|done].
    destruct (parse_orderby _ _) as [od|] eqn:Ho; bind_simpl; [|done].
    intros [= <-]. cbn [value count].
    apply parse_filter_sublist in Hf.
    pose proof (sublist_length _ _ Hf) as Hlf.
    apply sublist_submseteq in Hf. apply parse_orderby_perm in Ho.
    pose proof (paginate_sublist skip top od) as Hp. cbv zeta in Hp.
    eexists. split_and!; [|reflexivity|].
    + etrans; [by apply sublist_submseteq|]. by rewrite Ho.
    + intros n Hn. rewrite parse_select_length.
      apply sublist_length in Hp. apply Permutation_length in Ho.
      destruct (default false with_count); [|done]. injection Hn as <-. lia.
  - unfold get_orders.
    destruct (parse_filter _ _) as [fd|] eqn:Hf; bind_simpl; [|done].
    destruct (parse_orderby _ _) as [od|] eqn:Ho; bind_simpl; [|done].
    intros [= <-]. cbn [value count].
    apply parse_filter_sublist in Hf.
    pose proof (sublist_length _ _ Hf) as Hlf.
    apply sublist_submseteq in Hf. apply parse_orderby_perm in Ho.
    pose proof (paginate_sublist skip top od) as Hp. cbv zeta in Hp.
    eexists. split_and!; [|reflexivity|].
    + etrans; [by apply sublist_submseteq|]. by rewrite Ho.
    + intros n Hn. rewrite parse_select_length.
      apply sublist_length in Hp. apply Permutation_length in Ho.
      destruct (default false with_count); [|done]. injection Hn as <-. lia.
Qed.

Lemma list_handlers_page_within_store_witness :
  ∃ l, l ⊆+ orders_data
     ∧ [ {[ "OrderID" := VInt 1004 ]} ] = parse_select (Some "OrderID") l
     ∧ ∀ n, Some 2 = Some n → 1 ≤ n ≤ 4.
Proof.
  apply (list_handlers_page_within_store customers_data orders_data
           (Some "Status eq completed") (Some "OrderID")
           (Some "TotalAmount desc") (Some (-1)) (Some (-5)) (Some true)
           {| value := [ {[ "OrderID" := VInt 1004 ]} ];
              count := Some 2 |}).
  reflexivity.
Defined.

Lemma slice_index_neg {A} (l : list A) (k : Z) :
  0 < k → slice_index l (- k) = (length l - Z.to_nat k)%nat.
Proof.
  intros Hk. unfold slice_index. rewrite bool_decide_eq_true_2 by lia. lia.
Qed.

(** X15.  Negative values of skip and top are not refused: when filter
    and order give the list [ordered_data], a negative skip alone keeps
    the last records, as many as its absolute value, and a negative top
    alone drops them; the list is returned whole, or empty, when it has
    fewer records than that. *)
Theorem negative_skip_and_top (customers_data : list Customer)
    (filter_ select orderby : option string) (with_count : option bool)
    (ordered_data : list Customer) (k : Z) :
  parse_filter filter_ customers_data ≫= parse_orderby orderby
    = Return ordered_data →
  0 < k →
  (∃ r, get_customers customers_data filter_ select orderby None
          (Some (- k)) with_count = Return r
      ∧ value r
        = parse_select select
            (drop (length ordered_data - Z.to_nat k) ordered_data))
  ∧ (∃ r, get_customers customers_data filter_ select orderby
            (Some (- k)) None with_count = Return r
        ∧ value r
          = parse_select select
              (take (length ordered_data - Z.to_nat k) ordered_data)).
Proof.
  intros Hq Hk. unfold get_customers.
  destruct (parse_filter filter_ customers_data) as [fd|]; [|done].
  bind_simpl. cbn [mbind result_bind] in Hq. rewrite Hq. bind_simpl.
  cbn [truthy_int from_option id].
  rewrite bool_decide_eq_false_2 by lia. cbn [negb].
  split; eexists; (split; [reflexivity|]); cbn [value]; f_equal.
  - unfold slice_from. by rewrite slice_index_neg.
  - unfold slice_to. by rewrite slice_index_neg.
Qed.

Lemma negative_skip_and_top_witness :
  (∃ r, get_customers customers_data None None None None (Some (-1)) None
        = Return r
      ∧ value r = parse_select None (drop 3 customers_data))
  ∧ (∃ r, get_customers customers_data None None None (Some (-1)) None None
          = Return r
        ∧ value r = parse_select None (take 3 customers_data)).
Proof.
  apply (negative_skip_and_top customers_data None None None None
           customers_data 1); [reflexivity|lia].
Defined.

(** ** Reading one record *)

Lemma find_order_None (id : Z) (s : list Order) :
  list_find (λ o, OrderID o = id) s = None ↔ id ∉ OrderID <$> s.
Proof.
  rewrite list_find_None, list_elem_of_fmap, Forall_forall. split.
  - intros Hall (c & -> & Hin). by apply (Hall c).
  - intros Hno c Hin Hc. apply Hno. by exists c.
Qed.

(** With distinct OrderIDs, an order of the list is the one that is read
    by its id. *)
Lemma get_order_by_id_member (orders_data : list Order) (o : Order) :
  NoDup (OrderID <$> orders_data) →
  o ∈ orders_data →
  get_order_by_id orders_data (OrderID o) = Return (dict o).
Proof.
  intros Hnd (j & Hj)%list_elem_of_lookup_1. unfold get_order_by_id.
  destruct (list_find _ orders_data) as [[i o']|] eqn:Hf.
  - apply list_find_Some in Hf as (Hi & Ho & _).
    assert (i = j) as ->; [|congruence].
    eapply NoDup_lookup; [exact Hnd|..]; rewrite list_lookup_fmap;
      [by rewrite Hi; cbn; rewrite Ho|by rewrite Hj].
  - apply list_find_None in Hf. rewrite Forall_forall in Hf.
    destruct (Hf o); [by eapply list_elem_of_lookup_2|done].
Qed.

(** X16.  GET /odata/Customers(id) fails with status 404 exactly when no
    customer of the store has the id, and returns exactly when one has,
    whatever select and expand are; without a select list the mapping it
    returns has the id asked for as its CustomerID. *)
Theorem get_customer_by_id_not_found (customers_data : list Customer)
    (orders_data : list Order) (customer_id : Z)
    (select expand : option string) :
  (customer_id ∉ CustomerID <$> customers_data ↔
   get_customer_by_id customers_data orders_data customer_id select expand
   = Raise (HTTPException 404 "Customer not found"))
  ∧ (customer_id ∈ CustomerID <$> customers_data ↔
     ∃ m, get_customer_by_id customers_data orders_data customer_id select
            expand = Return m)
  ∧ ∀ m, get_customer_by_id customers_data orders_data customer_id None
           expand = Return m →
         m !! "CustomerID" = Some (Field (VInt customer_id)).
Proof.
  unfold get_customer_by_id.
  destruct (list_find _ customers_data) as [[i c]|] eqn:Hf.
  - assert (customer_id ∈ CustomerID <$> customers_data) as Hin.
    { apply find_id_Some in Hf as [Hi <-].
      apply list_elem_of_fmap_2. by eapply list_elem_of_lookup_2. }
    split_and!.
    + split; [done|]. by destruct (truthy select).
    + split; [by eexists|done].
    + intros m [= <-]. apply find_id_Some in Hf as [_ <-].
      cbn [truthy]. by destruct (truthy expand && _).
  - apply find_id_None in Hf. split_and!; [done| |done].
    split; [done|]. by intros [m ?].
Qed.

Lemma get_customer_by_id_not_found_witness :
  get_customer_by_id customers_data orders_data 9 (Some "City") (Some "Orders")
  = Raise (HTTPException 404 "Customer not found").
Proof.
  apply (get_customer_by_id_not_found customers_data orders_data 9
           (Some "City") (Some "Orders")).
  apply (bool_decide_unpack _). vm_compute. exact I.
Defined.

(** X17.  In the mapping GET /odata/Customers(id) returns, the key
    Orders is present exactly when the expand text has Orders in it, as
    a word or as a part of one, and the select list is absent, empty or
    names Orders; it then holds the mappings of the orders of the store
    whose CustomerID is the id, all of them, in the order of the store. *)
Theorem get_customer_by_id_orders (customers_data : list Customer)
    (orders_data : list Order) (customer_id : Z)
    (select expand : option string) (m : gmap string entry) :
  get_customer_by_id customers_data orders_data customer_id select expand
  = Return m →
  m !! "Orders"
  = if Str.contains "Orders" (default "" expand) && selects select "Orders"
    then Some (Records (dict <$> filter (λ o, Order_CustomerID o = customer_id)
                                   orders_data))
    else None.
Proof.
  unfold get_customer_by_id, selects.
  destruct (list_find _ customers_data) as [[i c]|]; [|done].
  intros [= <-].
  assert (truthy expand && Str.contains "Orders" (default "" expand)
          = Str.contains "Orders" (default "" expand)) as ->.
  { by destruct expand as [[|a e]|]. }
  destruct (Str.contains "Orders" _); cbn [andb];
    destruct (truthy select); cbn [negb orb];
    rewrite ?select_fields_lookup; fold (fields_of (default "" select));
    try case_bool_decide; try done.
Qed.

Lemma get_customer_by_id_orders_witness :
  ∃ m, get_customer_by_id customers_data orders_data 4
         (Some "Orders, City") (Some "PastOrders") = Return m
     ∧ m !! "Orders"
       = Some (Records (dict <$> filter (λ o, Order_CustomerID o = 4)
                                   orders_data)).
Proof.
  eexists. split; [reflexivity|].
  by apply (get_customer_by_id_orders customers_data orders_data 4
              (Some "Orders, City") (Some "PastOrders")).
Defined.

(** X18.  GET /odata/Orders(id) fails with status 404 exactly when no
    order of the store has the id, and otherwise returns the full mapping
    of an order of the store that has it. *)
Theorem get_order_by_id_found (orders_data : list Order) (order_id : Z) :
  (order_id ∉ OrderID <$> orders_data ↔
   get_order_by_id orders_data order_id
   = Raise (HTTPException 404 "Order not found"))
  ∧ (order_id ∈ OrderID <$> orders_data ↔
     ∃ o, o ∈ orders_data ∧ OrderID o = order_id
          ∧ get_order_by_id orders_data order_id = Return (dict o)).
Proof.
  unfold get_order_by_id. split.
  - rewrite <- find_order_None.
    destruct (list_find _ orders_data) as [[i o]|]; by split.
  - destruct (list_find _ orders_data) as [[i o]|] eqn:Hf.
    + apply list_find_Some in Hf as (Hi & Ho & _).
      assert (o ∈ orders_data) by (by eapply list_elem_of_lookup_2).
      split; [by exists o|]. intros _. rewrite <- Ho.
      by apply list_elem_of_fmap_2.
    + apply find_order_None in Hf. split; [done|]. by intros (o & _ & _ & ?).
Qed.

Lemma get_order_by_id_found_witness :
  ∃ o, o ∈ orders_data ∧ OrderID o = 1003
       ∧ get_order_by_id orders_data 1003 = Return (dict o).
Proof.
  apply (get_order_by_id_found orders_data 1003).
  apply (bool_decide_unpack _). vm_compute. exact I.
Defined.

(** X19.  With distinct OrderIDs in the store, every mapping that the
    expansion of a customer lists under Orders is what GET
    /odata/Orders(id) returns for the id of an order of that customer. *)
Theorem expanded_orders_read_back (customers_data : list Customer)
    (orders_data : list Order) (customer_id : Z) (expand : option string)
    (m : gmap string entry) (l : list (gmap string Any)) :
  NoDup (OrderID <$> orders_data) →
  get_customer_by_id customers_data orders_data customer_id None expand
  = Return m →
  m !! "Orders" = Some (Records l) →
  Forall (λ d, ∃ o, o ∈ orders_data ∧ Order_CustomerID o = customer_id
                    ∧ get_order_by_id orders_data (OrderID o) = Return d) l.
Proof.
  intros Hnd Hget Hm.
  unfold get_customer_by_id in Hget.
  destruct (list_find _ customers_data) as [[i c]|]; [|done].
  injection Hget as <-. cbn [truthy] in Hm.
  destruct (truthy expand && _); [|done].
  rewrite lookup_insert_eq in Hm. injection Hm as <-.
  apply Forall_fmap, Forall_forall. intros o [Ho Hin]%list_elem_of_filter.
  exists o. split_and!; [done..|]. by apply get_order_by_id_member.
Qed.

Lemma expanded_orders_read_back_witness :
  Forall (λ d, ∃ o, o ∈ orders_data ∧ Order_CustomerID o = 1
                    ∧ get_order_by_id orders_data (OrderID o) = Return d)
    (dict <$> filter (λ o, Order_CustomerID o = 1) orders_data).
Proof.
  eapply (expanded_orders_read_back customers_data orders_data 1
            (Some "Orders")).
  - apply (bool_decide_unpack _). vm_compute. exact I.
  - reflexivity.
  - reflexivity.
Defined.

(** X20.  The orders that GET /odata/Orders keeps for the filter
    [CustomerID eq] followed by the decimal form of an id are the orders
    that the expansion of the customer with that id lists. *)
Theorem orders_filter_agrees_with_expand (customers_data : list Customer)
    (orders_data : list Order) (customer_id : Z) (m : gmap string entry) :
  get_customer_by_id customers_data orders_data customer_id None
    (Some "Orders") = Return m →
  ∃ r, get_orders orders_data (Some ("CustomerID eq " +:+ pretty customer_id))
         None None None None None = Return r
     ∧ m !! "Orders" = Some (Records (value r)).
Proof.
  intros Hm. unfold get_orders.
  change ("CustomerID eq " +:+ pretty customer_id)
    with ("CustomerID" +:+ " eq " +:+ pretty customer_id).
  rewrite (parse_filter_int_field "CustomerID" Order_CustomerID) by done.
  eexists. split; [reflexivity|]. cbn [value].
  unfold get_customer_by_id in Hm.
  destruct (list_find _ customers_data) as [[i c]|]; [|done].
  injection Hm as <-. by rewrite lookup_insert_eq.
Qed.

Lemma orders_filter_agrees_with_expand_witness :
  ∃ m r, get_customer_by_id customers_data orders_data 1 None (Some "Orders")
         = Return m
       ∧ get_orders orders_data (Some "CustomerID eq 1") None None None None
           None = Return r
       ∧ m !! "Orders" = Some (Records (value r)).
Proof.
  eexists.
  destruct (orders_filter_agrees_with_expand customers_data orders_data 1 _
              eq_refl) as (r & Hr & Hm).
  exists r. split; [reflexivity|]. split; [exact Hr|exact Hm].
Defined.

Lemma list_find_head_filter {A} (P : A → Prop) `{∀ x, Decision (P x)}
    (l : list A) :
  snd <$> list_find P l = head (filter P l).
Proof.
  induction l as [|x l IH]; [done|]. cbn [list_find].
  rewrite filter_cons. destruct (decide (P x)); [done|].
  rewrite <- IH. by destruct (list_find P l) as [[i y]|].
Qed.

Lemma filter_id_absent (s : list Customer) id :
  id ∉ CustomerID <$> s → filter (λ c, CustomerID c = id) s = [].
Proof.
  intros Hn. induction s as [|c s IH]; [done|].
  rewrite fmap_cons, not_elem_of_cons in Hn. destruct Hn as [Hc Hn].
  rewrite filter_cons_False by done. by apply IH.
Qed.

Lemma filter_id_unique (s : list Customer) id :
  unique_ids s → (length (filter (λ c, CustomerID c = id) s) ≤ 1)%nat.
Proof.
  unfold unique_ids. induction s as [|c s IH]; [cbn; lia|].
  rewrite fmap_cons, NoDup_cons. intros [Hc Hs]. rewrite filter_cons.
  destruct (decide (CustomerID c = id)) as [<-|]; [|by apply IH].
  by rewrite filter_id_absent.
Qed.

(** X21.  With distinct CustomerIDs in the store, GET /odata/Customers
    with the filter [CustomerID eq] followed by the decimal form of an id
    returns the one customer that GET /odata/Customers(id) reads, and no
    customer when that request fails. *)
Theorem customers_filter_agrees_with_read (customers_data : list Customer)
    (orders_data : list Order) (customer_id : Z) :
  unique_ids customers_data →
  ∃ r, get_customers customers_data
         (Some ("CustomerID eq " +:+ pretty customer_id))
         None None None None None = Return r
     ∧ match get_customer_by_id customers_data orders_data customer_id
               None None with
       | Return m =>
           ∃ c : Customer, value r = [dict c] ∧ m = Field <$> dict c
       | Raise _ => value r = []
       end.
Proof.
  intros Hu. unfold get_customers.
  change ("CustomerID eq " +:+ pretty customer_id)
    with ("CustomerID" +:+ " eq " +:+ pretty customer_id).
  rewrite (parse_filter_int_field "CustomerID" CustomerID) by done.
  eexists. split; [reflexivity|]. cbn [value parse_select truthy negb].
  pose proof (list_find_head_filter (λ c, CustomerID c = customer_id)
                customers_data) as Hh.
  pose proof (filter_id_unique customers_data customer_id Hu) as Hlen.
  unfold get_customer_by_id.
  destruct (list_find _ customers_data) as [[i c]|]; cbn in Hh.
  - exists c. split; [|done].
    destruct (filter _ customers_data) as [|c' [|c'' l]];
      cbn in Hh, Hlen; [done| |lia]. by injection Hh as ->.
  - by destruct (filter _ customers_data).
Qed.

Lemma customers_filter_agrees_with_read_witness :
  ∃ r, get_customers customers_data (Some "CustomerID eq 3") None None None
         None None = Return r
     ∧ match get_customer_by_id customers_data orders_data 3 None None with
       | Return m =>
           ∃ c : Customer, value r = [dict c] ∧ m = Field <$> dict c
       | Raise _ => value r = []
       end.
Proof.
  apply (customers_filter_agrees_with_read customers_data orders_data 3).
  apply (bool_decide_unpack _). vm_compute. exact I.
Defined.

(** ** Writing and reading back *)

Lemma filter_insert_neg {A} (P : A → Prop) `{∀ x, Decision (P x)}
    (l : list A) i x y :
  l !! i = Some x → ¬ P x → ¬ P y → filter P (<[i := y]> l) = filter P l.
Proof.
  revert i. induction l as [|z l IH]; intros [|i] Hi Hx Hy; try done.
  - cbn in Hi. injection Hi as ->.
    change (<[0%nat := y]> (x :: l)) with (y :: l).
    by rewrite !filter_cons_False.
  - change (<[S i := y]> (z :: l)) with (z :: <[i := y]> l).
    rewrite !filter_cons. by rewrite (IH i).
Qed.

Lemma filter_delete_neg {A} (P : A → Prop) `{∀ x, Decision (P x)}
    (l : list A) i x :
  l !! i = Some x → ¬ P x → filter P (delete i l) = filter P l.
Proof.
  revert i. induction l as [|z l IH]; intros [|i] Hi Hx; try done.
  - cbn in Hi. injection Hi as ->.
    change (delete 0%nat (x :: l)) with l.
    by rewrite filter_cons_False.
  - change (delete (S i) (z :: l)) with (z :: delete i l).
    rewrite !filter_cons. by rewrite (IH i).
Qed.

(** get_customer_by_id reads the list only through the first record with
    the id. *)
Lemma get_customer_by_id_first (s s' : list Customer) orders_data id
    select expand :
  head (filter (λ c, CustomerID c = id) s)
  = head (filter (λ c, CustomerID c = id) s') →
  get_customer_by_id s orders_data id select expand
  = get_customer_by_id s' orders_data id select expand.
Proof.
  rewrite <- !list_find_head_filter. intros Hh. unfold get_customer_by_id.
  destruct (list_find _ s) as [[i c]|], (list_find _ s') as [[i' c']|];
    cbn in Hh; by simplify_eq.
Qed.

Lemma get_customer_by_id_head (s : list Customer) orders_data id c :
  head (filter (λ c, CustomerID c = id) s) = Some c →
  get_customer_by_id s orders_data id None None = Return (Field <$> dict c).
Proof.
  rewrite <- list_find_head_filter. intros Hh. unfold get_customer_by_id.
  destruct (list_find _ s) as [[i c']|]; cbn in Hh; [|done].
  by injection Hh as ->.
Qed.

Lemma get_customer_by_id_absent (s : list Customer) orders_data id
    select expand :
  id ∉ CustomerID <$> s →
  get_customer_by_id s orders_data id select expand
  = Raise (HTTPException 404 "Customer not found").
Proof.
  intros Hn%find_id_None. unfold get_customer_by_id. by rewrite Hn.
Qed.

(** X22.  Round trip: a customer created under an id the store does not
    have is read back by that id, without select and expand, as the full
    mapping of the record that was sent, the mapping the reply of the
    create carries. *)
Theorem create_then_read (c : Customer) (s : list Customer)
    (orders_data : list Order) :
  CustomerID c ∉ CustomerID <$> s →
  ∃ r s', create_customer c s = (Return r, s')
     ∧ customer r = Some (dict c)
     ∧ get_customer_by_id s' orders_data (CustomerID c) None None
       = Return (Field <$> dict c).
Proof.
  intros Hn. unfold create_customer.
  destruct (existsb _ s) eqn:He; [by apply existsb_id in He|].
  eexists _, _. split_and!; [done..|].
  apply get_customer_by_id_head.
  by rewrite filter_app, filter_id_absent, filter_cons_True by done.
Qed.

Lemma create_then_read_witness :
  ∃ r s', create_customer newcomer customers_data = (Return r, s')
     ∧ customer r = Some (dict newcomer)
     ∧ get_customer_by_id s' orders_data 5 None None
       = Return (Field <$> dict newcomer).
Proof.
  apply (create_then_read newcomer customers_data orders_data).
  apply (bool_decide_unpack _). vm_compute. exact I.
Defined.

(** X23.  A replace whose body carries the id of its path, for an id the
    store has, is read back by that id as the full mapping of the body. *)
Theorem update_then_read (id : Z) (c : Customer) (s : list Customer)
    (orders_data : list Order) :
  id ∈ CustomerID <$> s →
  CustomerID c = id →
  ∃ r s', update_customer id c s = (Return r, s')
     ∧ customer r = Some (dict c)
     ∧ get_customer_by_id s' orders_data id None None
       = Return (Field <$> dict c).
Proof.
  intros (i & c0 & Hf)%find_id_is_Some Hc. unfold update_customer.
  rewrite Hf. eexists _, _. split_and!; [done..|].
  apply list_find_Some in Hf as (Hi & Hc0 & Hbefore).
  unfold get_customer_by_id.
  assert (list_find (λ c, CustomerID c = id) (<[i := c]> s) = Some (i, c))
    as ->; [|done].
  apply list_find_Some. split_and!; [|done|].
  - apply list_lookup_insert_eq. by eapply lookup_lt_Some.
  - intros j y Hj Hlt. rewrite list_lookup_insert_ne in Hj by lia.
    by eapply Hbefore.
Qed.

Lemma update_then_read_witness :
  ∃ r s', update_customer 2 renumbered customers_data = (Return r, s')
     ∧ customer r = Some (dict renumbered)
     ∧ get_customer_by_id s' orders_data 2 None None
       = Return (Field <$> dict renumbered).
Proof.
  apply (update_then_read 2 renumbered customers_data orders_data);
    [|reflexivity].
  apply (bool_decide_unpack _). vm_compute. exact I.
Defined.

(** X24.  With distinct CustomerIDs in the store, a replace whose body
    carries another id than its path succeeds and leaves no customer
    under the id of the path: reading that id then fails with status
    404, whatever select and expand are. *)
Theorem update_other_id_then_read (id : Z) (c : Customer) (s : list Customer)
    (orders_data : list Order) (select expand : option string) :
  unique_ids s →
  id ∈ CustomerID <$> s →
  CustomerID c ≠ id →
  ∃ r s', update_customer id c s = (Return r, s')
     ∧ get_customer_by_id s' orders_data id select expand
       = Raise (HTTPException 404 "Customer not found").
Proof.
  intros Hu (i & c0 & Hf)%find_id_is_Some Hc. unfold update_customer.
  rewrite Hf. eexists _, _. split; [done|].
  apply find_id_Some in Hf as [Hi Hc0].
  apply get_customer_by_id_absent.
  rewrite list_fmap_insert. intros (j & Hj)%list_elem_of_lookup_1.
  destruct (decide (j = i)) as [->|Hne].
  - rewrite list_lookup_insert_eq in Hj; [congruence|].
    rewrite length_fmap. by eapply lookup_lt_Some.
  - rewrite list_lookup_insert_ne in Hj by done.
    apply Hne. eapply NoDup_lookup; [exact Hu|exact Hj|].
    by rewrite list_lookup_fmap, Hi; cbn; congruence.
Qed.

Lemma update_other_id_then_read_witness :
  ∃ r s', update_customer 1 renumbered customers_data = (Return r, s')
     ∧ get_customer_by_id s' orders_data 1 None (Some "Orders")
       = Raise (HTTPException 404 "Customer not found").
Proof.
  apply (update_other_id_then_read 1 renumbered customers_data orders_data
           None (Some "Orders")).
  - apply (bool_decide_unpack _). vm_compute. exact I.
  - apply (bool_decide_unpack _). vm_compute. exact I.
  - done.
Defined.

(** X25.  With distinct CustomerIDs in the store, a customer that was
    deleted is gone: reading its id then fails with status 404. *)
Theorem delete_then_read (id : Z) (s : list Customer)
    (orders_data : list Order) (select expand : option string) :
  unique_ids s →
  id ∈ CustomerID <$> s →
  ∃ r s', delete_customer id s = (Return r, s')
     ∧ get_customer_by_id s' orders_data id select expand
       = Raise (HTTPException 404 "Customer not found").
Proof.
  intros Hu (i & c0 & Hf)%find_id_is_Some. unfold delete_customer.
  rewrite Hf. eexists _, _. split; [done|].
  apply find_id_Some in Hf as [Hi Hc0].
  apply get_customer_by_id_absent.
  rewrite list_fmap_delete. intros (j & Hj)%list_elem_of_lookup_1.
  assert ((CustomerID <$> s) !! i = Some id) as Hi'
    by (rewrite list_lookup_fmap, Hi; cbn; congruence).
  destruct (decide (j < i)%nat).
  - rewrite list_lookup_delete_lt in Hj by done.
    pose proof (NoDup_lookup _ _ _ _ Hu Hj Hi'). lia.
  - rewrite list_lookup_delete_ge in Hj by lia.
    pose proof (NoDup_lookup _ _ _ _ Hu Hj Hi'). lia.
Qed.

Lemma delete_then_read_witness :
  ∃ r s', delete_customer 2 customers_data = (Return r, s')
     ∧ get_customer_by_id s' orders_data 2 None None
       = Raise (HTTPException 404 "Customer not found").
Proof.
  apply (delete_then_read 2 customers_data orders_data None None).
  - apply (bool_decide_unpack _). vm_compute. exact I.
  - apply (bool_decide_unpack _). vm_compute. exact I.
Defined.

(** X26.  Creating a customer under an id the store does not have and
    then deleting that id gives back the store as it was. *)
Theorem create_then_delete (c : Customer) (s : list Customer) :
  CustomerID c ∉ CustomerID <$> s →
  ∃ r r' s', create_customer c s = (Return r, s')
     ∧ delete_customer (CustomerID c) s' = (Return r', s).
Proof.
  intros Hn. unfold create_customer.
  destruct (existsb _ s) eqn:He; [by apply existsb_id in He|].
  eexists _, _, _. split; [done|]. unfold delete_customer.
  assert (list_find (λ c0, CustomerID c0 = CustomerID c) (s ++ [c])
          = Some (length s, c)) as ->.
  { apply list_find_Some. split_and!; [|done|].
    - by rewrite lookup_app_r, Nat.sub_diag by lia.
    - intros j y Hj Hlt Hy. rewrite lookup_app_l in Hj by done.
      apply Hn. rewrite <- Hy. apply list_elem_of_fmap_2.
      by eapply list_elem_of_lookup_2. }
  f_equal. by rewrite delete_middle, app_nil_r.
Qed.

Lemma create_then_delete_witness :
  ∃ r r' s', create_customer newcomer customers_data = (Return r, s')
     ∧ delete_customer 5 s' = (Return r', customers_data).
Proof.
  apply (create_then_delete newcomer customers_data).
  apply (bool_decide_unpack _). vm_compute. exact I.
Defined.

(** X27.  A write leaves the other customers alone: after a create, a
    replace or a delete, accepted or refused, reading an id that the
    request names neither in its path nor in its body gives what it gave
    before, for every select and expand. *)
Theorem write_keeps_other_ids (s : list Customer) (r : request)
    (orders_data : list Order) (id : Z) (select expand : option string) :
  id ∉ touched r →
  get_customer_by_id (serve s r) orders_data id select expand
  = get_customer_by_id s orders_data id select expand.
Proof.
  intros Hid. apply get_customer_by_id_first. f_equal.
  destruct r as [c|id' c|id']; cbn [serve touched] in *.
  - unfold create_customer. destruct (existsb _ s); [done|]. cbn [snd].
    rewrite filter_app, filter_cons_False, app_nil_r; [done|].
    intros Hc. apply Hid. rewrite Hc. left.
  - unfold update_customer.
    destruct (list_find _ s) as [[i c0]|] eqn:Hf; [|done]. cbn [snd].
    apply find_id_Some in Hf as [Hi Hc0].
    eapply filter_insert_neg; [done|..]; intros Hc; apply Hid.
    + rewrite <- Hc, Hc0. left.
    + rewrite Hc. right. left.
  - unfold delete_customer.
    destruct (list_find _ s) as [[i c0]|] eqn:Hf; [|done]. cbn [snd].
    apply find_id_Some in Hf as [Hi Hc0].
    eapply filter_delete_neg; [done|]. intros Hc. apply Hid.
    rewrite <- Hc, Hc0. left.
Qed.

Lemma write_keeps_other_ids_witness :
  get_customer_by_id (serve customers_data (PUT 1 renumbered)) orders_data 3
    (Some "City") (Some "Orders")
  = get_customer_by_id customers_data orders_data 3 (Some "City")
      (Some "Orders").
Proof.
  apply (write_keeps_other_ids customers_data (PUT 1 renumbered)).
  apply (bool_decide_unpack _). vm_compute. exact I.
Defined.

(** X28.  From any store with distinct CustomerIDs, every sequence of
    create, replace and delete requests whose replaces carry the id of
    their path leaves the CustomerIDs distinct. *)
Theorem unique_ids_preserved (s : list Customer) (requests : list request) :
  unique_ids s →
  Forall keeps_id requests →
  unique_ids (foldl serve s requests).
Proof.
  intros Hs Hall. revert s Hs.
  induction Hall as [|r requests Hr _ IH]; intros s Hs; [done|].
  cbn [foldl]. apply IH. by apply serve_unique.
Qed.

Lemma unique_ids_preserved_witness :
  unique_ids
    (foldl serve (drop 1 customers_data)
       [POST newcomer; PUT 2 renumbered; DELETE 4; POST renumbered]).
Proof.
  apply (unique_ids_preserved (drop 1 customers_data)).
  - apply (bool_decide_unpack _). vm_compute. exact I.
  - repeat constructor.
Defined.

(** ** The metadata document *)

(** X29.  The metadata document declares, for Customers and for Orders,
    exactly the names under which the records of the entity set have
    fields: every customer mapping has the keys declared for Customers
    and no others, and every order mapping those declared for Orders. *)
Theorem metadata_declares_the_fields :
  (∀ c : Customer, dom (dict c) = dom (declared "Customers"))
  ∧ (∀ o : Order, dom (dict o) = dom (declared "Orders")).
Proof.
  split.
  - intros c. destruct c. apply (bool_decide_unpack _). by vm_compute.
  - intros o. destruct o. apply (bool_decide_unpack _). by vm_compute.
Qed.
